(** * Discrete ACER (chainerrl/agents/acer.py): update core

    A shallow embedding of [DiscreteACER]: the trust-region projection, the
    backward return recursion of [update] and [update_on_policy], the replay
    adapter [update_from_replay], the scheduler ([act_and_train],
    [stop_episode_and_train]) and checkpoint [load].

    Numbers.  The program computes with IEEE floats (Python floats, numpy
    scalars and arrays).  Rounding is abstracted: a finite float is an exact
    rational ([Qc], canonical rationals, so that equal numbers are equal
    terms).  The special values are kept, because the program can produce
    them: numpy division by zero does not raise, it yields an infinity or a
    NaN.  Signed zeros are not distinguished (every zero is [+0]).

    What is proved of a number is proved of the exact value of the
    expression the program evaluates.  No statement rests on an identity of
    exact arithmetic that rounding breaks: where the program needs a
    cancellation to leave a number as it is (the re-basing of the return,
    [(Q_ret - Q) + V]), the statement takes that as a hypothesis on the
    numbers of the window ([rebase_exact]), to be read in the arithmetic of
    the program.

    Exceptions.  An exception raised by a method of the agent does not undo
    what the method has done: it is raised in the agent and the trace of
    that moment ([Raise (e, a, tr)]). *)

From Stdlib Require Import QArith Qcanon Ascii String.
From stdpp Require Import base numbers option list gmap strings.

Local Open Scope Z_scope.

(** ** Floats *)

Inductive npfloat : Type :=
| Fin (q : Qc)
| PInf
| NInf
| NaN.

Definition Qc_of (a : Z) (b : positive) : Qc := Q2Qc (a # b).

Abbreviation vec := (list npfloat).

Inductive fp_warning : Type := DivideByZero | InvalidValue.

Module NP.

Definition zero : npfloat := Fin 0%Qc.
Definition one : npfloat := Fin 1%Qc.
Definition two : npfloat := Fin (Qc_of 2 1).

Definition of_Z (n : Z) : npfloat := Fin (Qc_of_Z n).

(** The finite float [a / b]. *)
Definition frac (a : Z) (b : positive) : npfloat := Fin (Qc_of a b).

Definition is_fin (x : npfloat) : bool :=
  match x with Fin _ => true | _ => false end.

Definition is_nan (x : npfloat) : bool :=
  match x with NaN => true | _ => false end.

(** Sign of an infinity times (or divided by) a finite number. *)
Definition signed_inf (positive_inf : bool) (q : Qc) : npfloat :=
  match Qccompare q 0%Qc with
  | Eq => NaN
  | Gt => if positive_inf then PInf else NInf
  | Lt => if positive_inf then NInf else PInf
  end.

Definition neg (x : npfloat) : npfloat :=
  match x with
  | Fin q => Fin (- q)%Qc
  | PInf => NInf
  | NInf => PInf
  | NaN => NaN
  end.

Definition add (x y : npfloat) : npfloat :=
  match x, y with
  | NaN, _ | _, NaN => NaN
  | Fin a, Fin b => Fin (a + b)%Qc
  | PInf, NInf | NInf, PInf => NaN
  | PInf, _ | _, PInf => PInf
  | NInf, _ | _, NInf => NInf
  end.

Definition sub (x y : npfloat) : npfloat :=
  match x, y with
  | NaN, _ | _, NaN => NaN
  | Fin a, Fin b => Fin (a - b)%Qc
  | PInf, PInf | NInf, NInf => NaN
  | PInf, _ | _, NInf => PInf
  | NInf, _ | _, PInf => NInf
  end.

Definition mul (x y : npfloat) : npfloat :=
  match x, y with
  | NaN, _ | _, NaN => NaN
  | Fin a, Fin b => Fin (a * b)%Qc
  | Fin a, PInf | PInf, Fin a => signed_inf true a
  | Fin a, NInf | NInf, Fin a => signed_inf false a
  | PInf, PInf | NInf, NInf => PInf
  | PInf, NInf | NInf, PInf => NInf
  end.

(** numpy true division: a zero divisor raises nothing; [x / 0] is an
    infinity of the sign of [x], and [0 / 0] is NaN. *)
Definition div (x y : npfloat) : npfloat :=
  match x, y with
  | NaN, _ | _, NaN => NaN
  | Fin a, Fin b =>
      if decide (b = 0%Qc) then signed_inf true a else Fin (a / b)%Qc
  | Fin _, (PInf | NInf) => zero
  | PInf, Fin b => if decide (b = 0%Qc) then PInf else signed_inf true b
  | NInf, Fin b => if decide (b = 0%Qc) then NInf else signed_inf false b
  | (PInf | NInf), (PInf | NInf) => NaN
  end.

(** What numpy reports (a RuntimeWarning, not an exception) when it
    evaluates [x / y]: "divide by zero encountered" for a finite nonzero
    dividend over zero, "invalid value encountered" for [0 / 0] and
    [inf / inf].  Only the warnings of divisions are recorded. *)
Definition div_warning (x y : npfloat) : list fp_warning :=
  match x, y with
  | Fin a, Fin b =>
      if decide (b = 0%Qc)
      then (if decide (a = 0%Qc) then [InvalidValue] else [DivideByZero])
      else []
  | (PInf | NInf), (PInf | NInf) => [InvalidValue]
  | _, _ => []
  end.

Definition divide (x y : npfloat) : npfloat * list fp_warning :=
  (div x y, div_warning x y).

(** IEEE comparison [x < y]: false as soon as one side is NaN. *)
Definition lt (x y : npfloat) : bool :=
  match x, y with
  | NaN, _ | _, NaN => false
  | Fin a, Fin b => bool_decide (a < b)%Qc
  | NInf, NInf | PInf, _ => false
  | NInf, _ => true
  | Fin _, PInf => true
  | Fin _, NInf => false
  end.

(** Python's builtin [max(a, b)]: [b] replaces [a] only when [b > a]. *)
Definition py_max (a b : npfloat) : npfloat := if lt a b then b else a.

(** Python's builtin [min(a, b)]: [b] replaces [a] only when [b < a]. *)
Definition py_min (a b : npfloat) : npfloat := if lt b a then b else a.

(** [np.maximum], one element: NaN is propagated. *)
Definition maximum (x y : npfloat) : npfloat :=
  if is_nan x || is_nan y then NaN else if lt x y then y else x.

(** [np.dot] of two one-dimensional arrays. *)
Fixpoint dot (u v : vec) : npfloat :=
  match u, v with
  | x :: u', y :: v' => add (mul x y) (dot u' v')
  | _, _ => zero
  end.

(** [F.sum] / [np.sum] of a one-dimensional array. *)
Definition sum (v : vec) : npfloat := foldr add zero v.

(** Array minus scalar (broadcast), array times array, scalar times array. *)
Definition sub_scalar (v : vec) (s : npfloat) : vec := map (fun x => sub x s) v.
Definition vsub (u v : vec) : vec := zip_with sub u v.
Definition vmul (u v : vec) : vec := zip_with mul u v.
Definition vdiv (u v : vec) : vec := zip_with div u v.
Definition scale (s : npfloat) (v : vec) : vec := map (mul s) v.

End NP.

(** ** Trust-region projection (update, lines 229-232; update_on_policy, 383-388)

    [z = (g - max(0, ((np.dot(k, g) - self.trust_region_delta) / np.dot(k, k))))]
    The same expression is written in both update paths.  The result is the
    array [z] together with the warnings numpy reports while evaluating it. *)

Definition trust_region_z (g k : vec) (delta : npfloat) : vec * list fp_warning :=
  let '(quotient, w) := NP.divide (NP.sub (NP.dot k g) delta) (NP.dot k k) in
  (NP.sub_scalar g (NP.py_max NP.zero quotient), w).

(** The projection as the specification words it:
    [z = g − max(0, (k·g − δ) / (k·k)) · k]. *)
Definition trust_region_z_spec (g k : vec) (delta : npfloat) : vec :=
  let quotient := NP.div (NP.sub (NP.dot k g) delta) (NP.dot k k) in
  NP.vsub g (NP.scale (NP.py_max NP.zero quotient) k).

(** ** Exceptions *)

Inductive exn : Type :=
| AssertionError
| KeyError (key : Z)
| TypeError
| IndexError
| AttributeError
| ZeroDivisionError
| KeyErrorNpz (path : string)
| IOError (path : string).

(** An expression returns a value or raises.  A computation on numbers and
    dicts raises an exception; a method of the agent (below) raises an
    exception in some state: what it has written to the agent and to the
    trace before the exception stays written. *)
Inductive outcome (E A : Type) : Type :=
| Ok (a : A)
| Raise (e : E).
Arguments Ok {E A} a.
Arguments Raise {E A} e.

Abbreviation result := (outcome exn).

Definition result_bind {A B : Type} (m : result A) (f : A -> result B) : result B :=
  match m with
  | Ok a => f a
  | Raise e => Raise e
  end.

Declare Scope py_scope.
Delimit Scope py_scope with py.
Notation "x <- m ;; k" := (result_bind m (fun x => k))
  (at level 100, m at next level, right associativity) : py_scope.
Local Open Scope py_scope.

(** [os.path.join(a, b)] for a relative [b]. *)
Fixpoint ends_with_slash (s : string) : bool :=
  match s with
  | EmptyString => false
  | String c EmptyString => bool_decide (c = "/"%char)
  | String _ s' => ends_with_slash s'
  end.

Definition path_join (a b : string) : string :=
  if bool_decide (a = EmptyString) || ends_with_slash a
  then a +:+ b
  else a +:+ "/" +:+ b.

(** [d[k]] on a dict with integer keys. *)
Definition getitem {A : Type} (d : gmap Z A) (k : Z) : result A :=
  match d !! k with
  | Some x => Ok x
  | None => Raise (KeyError k)
  end.

(** [range(a, b)] and [reversed(range(a, b))]. *)
Definition range (a b : Z) : list Z :=
  map (fun n => a + Z.of_nat n) (seq 0 (Z.to_nat (b - a))).
Definition reversed_range (a b : Z) : list Z := rev (range a b).

(** ** Distribution and value objects (external classes)

    The objects a model call returns are records of what their members
    evaluate to.  A scalar chainer Variable computed from the distribution
    is kept as its value and its gradient with respect to the logits (what
    [backward()] leaves in [logits.grad[0]] for it). *)

Abbreviation action := Z.

Record variable : Type := {
  data : npfloat;
  grad_logits : vec;
}.

Record distrib : Type := {
  logits : vec;
  all_prob : vec;
  all_log_prob : list variable;
  prob : action -> npfloat;
  log_prob : action -> variable;
  entropy : npfloat;
  most_probable : action;
}.

Record action_value : Type := {
  q_values : vec;
  evaluate_actions : action -> npfloat;
}.

(** [X.backward(); logits.grad[0]] for a loss [X] that is a sum of terms
    [c * y], [c] a constant and [y] a Variable with gradient row [y'] with
    respect to the [n] logits: component [j] is the sum of the [c * y'[j]]. *)
Definition backward_logits (n : nat) (terms : list (npfloat * vec)) : vec :=
  map (fun j => foldr (fun t s => NP.add (NP.mul t.1 (nth j t.2 NP.zero)) s)
                      NP.zero terms)
      (seq 0 n).

(** [compute_discrete_kl(p, q)] (line 67):
    [F.sum(p.all_prob * (p.all_log_prob - q.all_log_prob), axis=1)], with its
    gradient with respect to the logits of [q] ([p] is the average policy,
    evaluated in no-backprop mode). *)
Definition compute_discrete_kl (p q : distrib) : variable :=
  {| data :=
       NP.sum (zip_with NP.mul (all_prob p)
                 (zip_with NP.sub (data <$> all_log_prob p) (data <$> all_log_prob q)));
     grad_logits :=
       backward_logits (length (logits q))
         (zip_with (fun pa lq => (NP.neg pa, grad_logits lq))
                   (all_prob p) (all_log_prob q)) |}.

(** ** Hyperparameters ([__init__], lines 106-145) *)

Record config : Type := {
  t_max : Z;
  gamma : npfloat;
  beta : npfloat;
  pi_loss_coef : npfloat;
  v_loss_coef : npfloat;
  trust_region_alpha : npfloat;
  trust_region_c : npfloat;
  trust_region_delta : npfloat;
  n_times_replay : Z;
  normalize_loss_by_steps : bool;
  act_deterministically : bool;
  average_entropy_decay : npfloat;
  average_value_decay : npfloat;
  process_idx : option Z;
}.

(** The defaults of [__init__]; [process_idx] is the class attribute [None]
    ([__init__] takes the argument and does not store it). *)
Definition default_config (t_max : Z) (gamma : npfloat) : config :=
  {| t_max := t_max; gamma := gamma;
     beta := Fin (Qc_of 1 100);
     pi_loss_coef := NP.one;
     v_loss_coef := Fin (Qc_of 1 2);
     trust_region_alpha := Fin (Qc_of 99 100);
     trust_region_c := Fin (Qc_of 10 1);
     trust_region_delta := NP.one;
     n_times_replay := 8;
     normalize_loss_by_steps := true;
     act_deterministically := false;
     average_entropy_decay := Fin (Qc_of 999 1000);
     average_value_decay := Fin (Qc_of 999 1000);
     process_idx := None |}.

(** ** The loss graph

    [pi_loss] and [v_loss] are chainer Variables: a value and a graph.  The
    graph of step [i] holds the model outputs of that step ([logits],
    [entropy], the value [v]) and two constants: the array [z] that
    multiplies the logits in the policy loss, and the return target
    [Q_ret] of the value loss.  [total_loss.backward()] is a function of
    these. *)

Record step_term : Type := {
  term_i : Z;
  term_logits : vec;
  term_entropy : npfloat;
  term_v : npfloat;
  term_Q_ret : npfloat;
  term_z : vec;
}.

Record losses : Type := {
  pi_loss : npfloat;
  v_loss : npfloat;
  terms : list step_term;
}.

Definition no_losses : losses :=
  {| pi_loss := NP.zero; v_loss := NP.zero; terms := [] |}.

(** The accumulation both loops share (update 229-237, update_on_policy
    383-393), given the return [Q_ret] of the step and its arrays [g], [k]:
    [z = ...; pi_loss -= F.sum(logits * z); pi_loss -= beta * entropy;
     v_loss += square_arg ** 2 / 2], where [square_arg] is [Q_ret - v] in
    [update] and [v - R] in [update_on_policy].  The warnings of the
    division in [z] go to the console and are not kept. *)
Definition accumulate (cfg : config) (i : Z) (ad : distrib) (ent v Q_ret : npfloat)
    (g k : vec) (square_arg : npfloat) (acc : losses) : losses :=
  let z := (trust_region_z g k (trust_region_delta cfg)).1 in
  let pi := NP.sub (pi_loss acc) (NP.sum (NP.vmul (logits ad) z)) in
  let pi := NP.sub pi (NP.mul (beta cfg) ent) in
  let vl := NP.add (v_loss acc) (NP.div (NP.mul square_arg square_arg) NP.two) in
  {| pi_loss := pi; v_loss := vl;
     terms := terms acc ++
       [{| term_i := i; term_logits := logits ad; term_entropy := ent;
           term_v := v; term_Q_ret := Q_ret; term_z := z |}] |}.

(** After the loop (update 243-253, update_on_policy 395-405):
    [pi_loss *= pi_loss_coef; v_loss *= v_loss_coef] and the division by the
    number of steps [n].  With an empty window the losses are still the
    Python numbers they started as: the normalisation [0.0 / 0] raises, and
    otherwise [pi_loss.data] fails (a float has no [data]). *)
Definition scale_losses (cfg : config) (n : Z) (acc : losses) : result losses :=
  if bool_decide (n <= 0) then
    if normalize_loss_by_steps cfg && bool_decide (n = 0)
    then Raise ZeroDivisionError else Raise AttributeError
  else
    let pi := NP.mul (pi_loss acc) (pi_loss_coef cfg) in
    let vl := NP.mul (v_loss acc) (v_loss_coef cfg) in
    Ok (if normalize_loss_by_steps cfg
        then {| pi_loss := NP.div pi (NP.of_Z n); v_loss := NP.div vl (NP.of_Z n);
                terms := terms acc |}
        else {| pi_loss := pi; v_loss := vl; terms := terms acc |}).

(** ** update (lines 177-241): the return/correction engine

    The keyword arguments of [update], dicts indexed by timestep.  [rho] and
    [rho_a] default to [None]. *)

Record window (Obs : Type) : Type := {
  states : gmap Z Obs;
  actions : gmap Z action;
  rewards : gmap Z npfloat;
  values : gmap Z npfloat;
  action_values : gmap Z action_value;
  action_log_probs : gmap Z variable;
  action_entropy : gmap Z npfloat;
  action_distribs : gmap Z distrib;
  avg_action_distribs : gmap Z distrib;
  rho : option (gmap Z npfloat);
  rho_a : option (gmap Z vec);
}.
Arguments states {Obs} w.
Arguments actions {Obs} w.
Arguments rewards {Obs} w.
Arguments values {Obs} w.
Arguments action_values {Obs} w.
Arguments action_log_probs {Obs} w.
Arguments action_entropy {Obs} w.
Arguments action_distribs {Obs} w.
Arguments avg_action_distribs {Obs} w.
Arguments rho {Obs} w.
Arguments rho_a {Obs} w.

(** [x[i]] where [x] may be [None]: subscripting [None] is a TypeError. *)
Definition getitem_opt {A : Type} (d : option (gmap Z A)) (k : Z) : result A :=
  match d with
  | Some d => getitem d k
  | None => Raise TypeError
  end.

(** The debug line of each step evaluates [states[i].sum()] when
    [process_idx == 0]. *)
Definition debug_state {Obs : Type} (cfg : config) (sts : gmap Z Obs) (i : Z) : result unit :=
  if bool_decide (process_idx cfg = Some 0)
  then (_ <- getitem sts i ;; Ok tt)
  else Ok tt.

(** Lines 202-213, the off-policy [g_loss]:
    [rho_bar * log_prob * float(advantage.data)
     + F.sum(correction_weight * action_distribs[i].all_log_prob
             * correction_advantage, axis=1)]
    as the list of its terms (constant, gradient row). *)
Definition correction_weight (cfg : config) (rho_a_i : vec) : vec :=
  map (fun r => NP.maximum (NP.div (NP.sub r (trust_region_c cfg)) r) NP.zero) rho_a_i.

Definition off_policy_g_loss (cfg : config) (rho_i : npfloat) (rho_a_i : vec)
    (log_prob : variable) (advantage : npfloat) (av : action_value) (v : npfloat)
    (ad : distrib) : list (npfloat * vec) :=
  let rho_bar := NP.py_min (trust_region_c cfg) rho_i in
  let correction_advantage := map (fun q => NP.sub q v) (q_values av) in
  (NP.mul rho_bar advantage, grad_logits log_prob)
  :: zip_with (fun wc lp => (wc, grad_logits lp))
       (NP.vmul (correction_weight cfg rho_a_i) correction_advantage)
       (all_log_prob ad).

(** Line 216, the on-policy [g_loss = log_prob * float(advantage.data)]. *)
Definition on_policy_g_loss (log_prob : variable) (advantage : npfloat)
    : list (npfloat * vec) :=
  [(advantage, grad_logits log_prob)].

(** One iteration of the loop of [update] (lines 186-241).  The state carried
    from step to step is the running [Q_ret] and the accumulated losses. *)
Definition update_step {Obs : Type} (cfg : config) (w : window Obs)
    (i : Z) (st : npfloat * losses) : result (npfloat * losses) :=
  let '(Q_ret, acc) := st in
  r <- getitem (rewards w) i ;;
  let Q_ret := NP.add r (NP.mul (gamma cfg) Q_ret) in
  v <- getitem (values w) i ;;
  _ <- debug_state cfg (states w) i ;;
  let advantage := NP.sub Q_ret v in
  log_prob <- getitem (action_log_probs w) i ;;
  entropy <- getitem (action_entropy w) i ;;
  action_distrib <- getitem (action_distribs w) i ;;
  g_loss <- match rho w with
            | Some rho =>
                rho_i <- getitem rho i ;;
                rho_a_i <- getitem_opt (rho_a w) i ;;
                av <- getitem (action_values w) i ;;
                Ok (off_policy_g_loss cfg rho_i rho_a_i log_prob advantage av v
                      action_distrib)
            | None => Ok (on_policy_g_loss log_prob advantage)
            end ;;
  let g := backward_logits (length (logits action_distrib)) g_loss in
  avg <- getitem (avg_action_distribs w) i ;;
  let k := grad_logits (compute_discrete_kl avg action_distrib) in
  let acc := accumulate cfg i action_distrib entropy v Q_ret g k
               (NP.sub Q_ret v) acc in
  a <- getitem (actions w) i ;;
  av <- getitem (action_values w) i ;;
  let Q := evaluate_actions av a in
  rho_i <- getitem_opt (rho w) i ;;
  Ok (NP.add (NP.mul (NP.py_min NP.one rho_i) (NP.sub Q_ret Q)) v, acc).

Fixpoint update_loop {Obs : Type} (cfg : config) (w : window Obs)
    (steps : list Z) (st : npfloat * losses) : result (npfloat * losses) :=
  match steps with
  | [] => Ok st
  | i :: steps' => st' <- update_step cfg w i st ;; update_loop cfg w steps' st'
  end.

(** Lines 181-248: the loop over [reversed(range(t_start, t_stop))] from the
    bootstrap value [R], then the scaling of the two losses. *)
Definition update_losses {Obs : Type} (cfg : config) (t_start t_stop : Z) (R : npfloat)
    (w : window Obs) : result losses :=
  st <- update_loop cfg w (reversed_range t_start t_stop) (R, no_losses) ;;
  scale_losses cfg (t_stop - t_start) st.2.

(** ** External collaborators

    The network, the autodiff engine, the optimizer, the replay buffer and
    the serializer are not part of this file of the repository; the agent
    uses them through these operations.  The model is taken not to be
    [Recurrent] ([state_reset], [state_kept], [reset_state] and
    [unchain_backward] then do nothing). *)

Record transition (Obs : Type) : Type := {
  tr_state : Obs;
  tr_action : action;
  tr_reward : npfloat;
  tr_next_state : Obs;
  tr_next_action : action;
  tr_is_state_terminal : bool;
  tr_mu : option distrib;
}.
Arguments tr_state {Obs} t.
Arguments tr_action {Obs} t.
Arguments tr_reward {Obs} t.
Arguments tr_next_state {Obs} t.
Arguments tr_next_action {Obs} t.
Arguments tr_is_state_terminal {Obs} t.
Arguments tr_mu {Obs} t.

Class World : Type := {
  Obs : Type;
  Params : Type;
  Grads : Type;
  OptState : Type;
  ReplayBuffer : Type;
  (** [phi]: the feature extractor given to [__init__]. *)
  phi : Obs -> Obs;
  (** [model(statevar)] for a model with the given parameters. *)
  forward : Params -> Obs -> distrib * action_value;
  (** [model.zerograds(); total_loss.backward()]: the gradients left in the
      model. *)
  backward : Params -> losses -> Grads;
  (** [shared_model.zerograds(); copy_grad(...); optimizer.update()]: the new
      optimizer state and the new parameters of the shared model. *)
  optimizer_update : OptState -> Params -> Grads -> OptState * Params;
  (** [copy_param.soft_copy_param(target_link, source_link, tau)]. *)
  soft_copy_param : Params -> Params -> npfloat -> Params;
  (** [len(replay_buffer)], [sample_episodes(n, max_len)], [append(...)],
      [stop_current_episode()]. *)
  rb_len : ReplayBuffer -> Z;
  rb_sample_episodes : ReplayBuffer -> Z -> Z -> list (list (transition Obs));
  rb_append : ReplayBuffer -> transition Obs -> ReplayBuffer;
  rb_stop_current_episode : ReplayBuffer -> ReplayBuffer;
}.

(** What the scheduler and the updates do that can be observed from
    outside, in order. *)
Inductive event : Type :=
| CallUpdateOnPolicy
| CallUpdateFromReplay
| SampleEpisodes (n max_len : Z)
| OptimizerUpdate
| PrintLine (line : string).

Section Agent.
Context `{W : World}.

(** ** The agent ([__init__], lines 119-164) *)

Record agent : Type := {
  cfg : config;
  shared_model : Params;
  shared_average_model : Params;
  model : Params;
  optimizer : OptState;
  replay_buffer : ReplayBuffer;
  t : Z;
  t_start : Z;
  past_action_log_prob : gmap Z variable;
  past_action_entropy : gmap Z npfloat;
  past_states : gmap Z Obs;
  past_rewards : gmap Z npfloat;
  past_values : gmap Z npfloat;
  past_action_distrib : gmap Z distrib;
  past_avg_action_distrib : gmap Z distrib;
  last_state : option Obs;
  last_action : option action;
  last_action_distrib : option distrib;
  average_value : npfloat;
  average_entropy : npfloat;
}.

Definition init (c : config) (m : Params) (opt : OptState) (rb : ReplayBuffer) : agent :=
  {| cfg := c;
     shared_model := m; shared_average_model := m; model := m;
     optimizer := opt; replay_buffer := rb;
     t := 0; t_start := 0;
     past_action_log_prob := ∅; past_action_entropy := ∅; past_states := ∅;
     past_rewards := ∅; past_values := ∅; past_action_distrib := ∅;
     past_avg_action_distrib := ∅;
     last_state := None; last_action := None; last_action_distrib := None;
     average_value := NP.zero; average_entropy := NP.zero |}.

(** A method: it reads and replaces the agent, appends to the trace of
    events, and returns or raises.  An exception does not undo what the
    method did before it: [Raise (e, a, tr)] carries the agent and the trace
    as they are when [e] is raised. *)
Definition M (A : Type) : Type :=
  agent -> list event -> outcome (exn * agent * list event) (A * agent * list event).

Definition ret {A : Type} (x : A) : M A := fun s tr => Ok (x, s, tr).
Definition bind {A B : Type} (m : M A) (f : A -> M B) : M B :=
  fun s tr => match m s tr with
              | Ok (x, s', tr') => f x s' tr'
              | Raise e => Raise e
              end.
Definition get : M agent := fun s tr => Ok (s, s, tr).
Definition put (s : agent) : M unit := fun _ tr => Ok (tt, s, tr).
Definition emit (e : event) : M unit := fun s tr => Ok (tt, s, tr ++ [e]).
Definition raise {A : Type} (e : exn) : M A := fun s tr => Raise (e, s, tr).
Definition lift {A : Type} (r : result A) : M A :=
  fun s tr => match r with Ok x => Ok (x, s, tr) | Raise e => Raise (e, s, tr) end.
Definition assert (b : bool) : M unit := if b then ret tt else raise AssertionError.

(** [for _ in range(n): body]. *)
Fixpoint times (n : nat) (body : M unit) : M unit :=
  match n with
  | O => ret tt
  | S n' => bind body (fun _ => times n' body)
  end.
Definition for_range (n : Z) (body : M unit) : M unit := times (Z.to_nat n) body.

End Agent.

Declare Scope agent_scope.
Delimit Scope agent_scope with agent.
Notation "x <~ m ;; k" := (bind m (fun x => k))
  (at level 100, m at next level, right associativity) : agent_scope.
Notation "m ;;; k" := (bind m (fun _ => k))
  (at level 100, right associativity) : agent_scope.

Local Open Scope agent_scope.

Section Methods.
Context `{W : World}.

(** [F.sum(action_distrib.all_prob * action_value.q_values, axis=1)]. *)
Definition state_value (out : distrib * action_value) : npfloat :=
  NP.sum (NP.vmul (all_prob out.1) (q_values out.2)).

(** *** Field assignments *)

Definition set_models (a : agent) (shared avg local : Params) (opt : OptState) : agent :=
  {| cfg := cfg a;
     shared_model := shared; shared_average_model := avg; model := local;
     optimizer := opt; replay_buffer := replay_buffer a;
     t := t a; t_start := t_start a;
     past_action_log_prob := past_action_log_prob a;
     past_action_entropy := past_action_entropy a;
     past_states := past_states a;
     past_rewards := past_rewards a;
     past_values := past_values a;
     past_action_distrib := past_action_distrib a;
     past_avg_action_distrib := past_avg_action_distrib a;
     last_state := last_state a; last_action := last_action a;
     last_action_distrib := last_action_distrib a;
     average_value := average_value a; average_entropy := average_entropy a |}.

Definition set_past_rewards (a : agent) (r : gmap Z npfloat) : agent :=
  {| cfg := cfg a;
     shared_model := shared_model a; shared_average_model := shared_average_model a;
     model := model a; optimizer := optimizer a; replay_buffer := replay_buffer a;
     t := t a; t_start := t_start a;
     past_action_log_prob := past_action_log_prob a;
     past_action_entropy := past_action_entropy a;
     past_states := past_states a;
     past_rewards := r;
     past_values := past_values a;
     past_action_distrib := past_action_distrib a;
     past_avg_action_distrib := past_avg_action_distrib a;
     last_state := last_state a; last_action := last_action a;
     last_action_distrib := last_action_distrib a;
     average_value := average_value a; average_entropy := average_entropy a |}.

(** Lines 426-434: the seven buffers are replaced by empty dicts and
    [t_start = t]. *)
Definition clear_window (a : agent) : agent :=
  {| cfg := cfg a;
     shared_model := shared_model a; shared_average_model := shared_average_model a;
     model := model a; optimizer := optimizer a; replay_buffer := replay_buffer a;
     t := t a; t_start := t a;
     past_action_log_prob := ∅;
     past_action_entropy := ∅;
     past_states := ∅;
     past_rewards := ∅;
     past_values := ∅;
     past_action_distrib := ∅;
     past_avg_action_distrib := ∅;
     last_state := last_state a; last_action := last_action a;
     last_action_distrib := last_action_distrib a;
     average_value := average_value a; average_entropy := average_entropy a |}.

(** Lines 447-474: the step [t] is written into the window, [t += 1], and
    the two running averages move. *)
Definition record_step (a : agent) (statevar : Obs) (act : action)
    (ad : distrib) (v : npfloat) (avg : distrib) : agent :=
  {| cfg := cfg a;
     shared_model := shared_model a; shared_average_model := shared_average_model a;
     model := model a; optimizer := optimizer a; replay_buffer := replay_buffer a;
     t := t a + 1; t_start := t_start a;
     past_action_log_prob := <[t a := log_prob ad act]> (past_action_log_prob a);
     past_action_entropy := <[t a := entropy ad]> (past_action_entropy a);
     past_states := <[t a := statevar]> (past_states a);
     past_rewards := past_rewards a;
     past_values := <[t a := v]> (past_values a);
     past_action_distrib := <[t a := ad]> (past_action_distrib a);
     past_avg_action_distrib := <[t a := avg]> (past_avg_action_distrib a);
     last_state := last_state a; last_action := last_action a;
     last_action_distrib := last_action_distrib a;
     average_value :=
       NP.add (average_value a)
         (NP.mul (NP.sub NP.one (average_value_decay (cfg a)))
                 (NP.sub v (average_value a)));
     average_entropy :=
       NP.add (average_entropy a)
         (NP.mul (NP.sub NP.one (average_entropy_decay (cfg a)))
                 (NP.sub (entropy ad) (average_entropy a))) |}.

Definition set_last (a : agent) (rb : ReplayBuffer) (s : option Obs)
    (act : option action) (ad : option distrib) : agent :=
  {| cfg := cfg a;
     shared_model := shared_model a; shared_average_model := shared_average_model a;
     model := model a; optimizer := optimizer a; replay_buffer := rb;
     t := t a; t_start := t_start a;
     past_action_log_prob := past_action_log_prob a;
     past_action_entropy := past_action_entropy a;
     past_states := past_states a;
     past_rewards := past_rewards a;
     past_values := past_values a;
     past_action_distrib := past_action_distrib a;
     past_avg_action_distrib := past_avg_action_distrib a;
     last_state := s; last_action := act; last_action_distrib := ad;
     average_value := average_value a; average_entropy := average_entropy a |}.

(** *** sync_parameters (lines 166-171) and the end of both updates
    (lines 253-272, 405-424) *)

Definition sync_parameters : M unit :=
  a <~ get ;;
  let local := shared_model a in
  let avg := soft_copy_param (shared_average_model a) local
               (NP.sub NP.one (trust_region_alpha (cfg a))) in
  put (set_models a (shared_model a) avg local (optimizer a)).

Definition apply_losses (l : losses) : M unit :=
  a <~ get ;;
  let grads := backward (model a) l in
  let '(opt, shared) := optimizer_update (optimizer a) (shared_model a) grads in
  put (set_models a shared (shared_average_model a) (model a) opt) ;;;
  emit OptimizerUpdate ;;;
  sync_parameters.

(** *** update (lines 177-272) *)

Definition update (t_start t_stop : Z) (R : npfloat) (w : window Obs) : M unit :=
  a <~ get ;;
  l <~ lift (update_losses (cfg a) t_start t_stop R w) ;;
  apply_losses l.

(** *** update_from_replay (lines 274-339) *)

(** Lines 315-316: [action_distrib.prob(ba).data / mu.prob(ba).data] and
    [action_distrib.all_prob.data / mu.all_prob.data], with the warnings
    numpy reports for them. *)
Definition importance_ratio (pi mu : distrib) (a : action) : npfloat * list fp_warning :=
  NP.divide (prob pi a) (prob mu a).

Definition importance_ratio_all (pi mu : distrib) : vec * list fp_warning :=
  (NP.vdiv (all_prob pi) (all_prob mu),
   concat (zip_with NP.div_warning (all_prob pi) (all_prob mu))).

Definition empty_window : window Obs :=
  {| states := ∅; actions := ∅; rewards := ∅; values := ∅; action_values := ∅;
     action_log_probs := ∅; action_entropy := ∅; action_distribs := ∅;
     avg_action_distribs := ∅; rho := Some ∅; rho_a := Some ∅ |}.

(** The body of [for t, transition in enumerate(episode)] (lines 296-316).
    A transition stored with [mu = None] fails at [mu.prob]. *)
Definition replay_step (a : agent) (t : Z) (tr : transition Obs) (w : window Obs)
    : result (window Obs) :=
  let s := phi (tr_state tr) in
  let act := tr_action tr in
  let out := forward (model a) s in
  let v := state_value out in
  let avg := (forward (shared_average_model a) s).1 in
  match tr_mu tr with
  | None => Raise AttributeError
  | Some mu =>
      Ok {| states := <[t := s]> (states w);
            actions := <[t := act]> (actions w);
            rewards := <[t := tr_reward tr]> (rewards w);
            values := <[t := v]> (values w);
            action_values := <[t := out.2]> (action_values w);
            action_log_probs := <[t := log_prob out.1 act]> (action_log_probs w);
            action_entropy := <[t := entropy out.1]> (action_entropy w);
            action_distribs := <[t := out.1]> (action_distribs w);
            avg_action_distribs := <[t := avg]> (avg_action_distribs w);
            rho := (fun d => <[t := (importance_ratio out.1 mu act).1]> d) <$> rho w;
            rho_a := (fun d => <[t := (importance_ratio_all out.1 mu).1]> d) <$> rho_a w |}
  end.

Fixpoint replay_window (a : agent) (t : Z) (episode : list (transition Obs))
    (w : window Obs) : result (window Obs) :=
  match episode with
  | [] => Ok w
  | tr :: episode' =>
      w' <- replay_step a t tr w ;; replay_window a (t + 1) episode' w'
  end%py.

(** Lines 317-327: the bootstrap value of the sampled episode. *)
Definition replay_bootstrap (a : agent) (last_transition : transition Obs) : npfloat :=
  if tr_is_state_terminal last_transition then NP.zero
  else state_value (forward (model a) (phi (tr_next_state last_transition))).

Definition update_from_replay : M unit :=
  a <~ get ;;
  if bool_decide (rb_len (replay_buffer a) = 0) then ret tt
  else
    emit (SampleEpisodes 1 (t_max (cfg a) + 1)) ;;;
    match rb_sample_episodes (replay_buffer a) 1 (t_max (cfg a) + 1) with
    | [] => raise IndexError
    | episode :: _ =>
        w <~ lift (replay_window a 0 episode empty_window) ;;
        match last episode with
        | None => raise IndexError
        | Some last_transition =>
            update 0 (Z.of_nat (length episode))
                   (replay_bootstrap a last_transition) w
        end
    end.

(** *** update_on_policy (lines 341-434) *)

(** One iteration of the loop of lines 356-393. *)
Definition on_policy_step (a : agent) (i : Z) (st : npfloat * losses)
    : result (npfloat * losses) :=
  let '(R, acc) := st in
  let R := NP.mul R (gamma (cfg a)) in
  r <- getitem (past_rewards a) i ;;
  let R := NP.add R r in
  v <- getitem (past_values a) i ;;
  _ <- debug_state (cfg a) (past_states a) i ;;
  let advantage := NP.sub R v in
  log_prob <- getitem (past_action_log_prob a) i ;;
  entropy <- getitem (past_action_entropy a) i ;;
  action_distrib <- getitem (past_action_distrib a) i ;;
  let g := backward_logits (length (logits action_distrib))
             (on_policy_g_loss log_prob advantage) in
  avg <- getitem (past_avg_action_distrib a) i ;;
  let k := grad_logits (compute_discrete_kl avg action_distrib) in
  Ok (R, accumulate (cfg a) i action_distrib entropy v R g k (NP.sub v R) acc).

Fixpoint on_policy_loop (a : agent) (steps : list Z) (st : npfloat * losses)
    : result (npfloat * losses) :=
  match steps with
  | [] => Ok st
  | i :: steps' => st' <- on_policy_step a i st ;; on_policy_loop a steps' st'
  end%py.

(** Lines 354-400. *)
Definition on_policy_losses (a : agent) (R : npfloat) : result losses :=
  (st <- on_policy_loop a (reversed_range (t_start a) (t a)) (R, no_losses) ;;
   scale_losses (cfg a) (t a - t_start a) st.2)%py.

(** Lines 344-352: [R = 0] at a terminal state, else the value of
    [statevar] under the local model. *)
Definition on_policy_bootstrap (a : agent) (statevar : option Obs) : npfloat :=
  match statevar with
  | None => NP.zero
  | Some sv => state_value (forward (model a) sv)
  end.

Definition update_on_policy (statevar : option Obs) : M unit :=
  a <~ get ;;
  assert (bool_decide (t_start a < t a)) ;;;
  l <~ lift (on_policy_losses a (on_policy_bootstrap a statevar)) ;;
  apply_losses l ;;;
  a' <~ get ;;
  put (clear_window a').

(** *** act_and_train (lines 436-495)

    [action_distrib.sample()] draws at random: the action drawn is an
    argument.  [scheduled_updates] is the block written twice, at lines
    443-445 and 513-518: the on-policy update, then [n_times_replay] calls
    of [update_from_replay]; each call is marked in the trace. *)

Definition scheduled_updates (statevar : option Obs) : M unit :=
  a <~ get ;;
  emit CallUpdateOnPolicy ;;;
  update_on_policy statevar ;;;
  for_range (n_times_replay (cfg a)) (emit CallUpdateFromReplay ;;; update_from_replay).

(** Lines 447-495: the model is queried, the step is written into the
    window, the transition that led here is appended to the replay buffer,
    and the state, the action and its distribution are kept for the next
    call.  The two assertions of lines 477-478 come after the step is
    written and [t] is advanced. *)
Definition observe_and_store (state : Obs) (reward : npfloat) (drawn : action) : M action :=
  let statevar := phi state in
  a <~ get ;;
  let out := forward (model a) statevar in
  let v := state_value out in
  let avg := (forward (shared_average_model a) statevar).1 in
  let a := record_step a statevar drawn out.1 v avg in
  put a ;;;
  rb <~ match last_state a with
        | Some ls =>
            match last_action a, last_action_distrib a with
            | Some la, Some mu =>
                ret (rb_append (replay_buffer a)
                       {| tr_state := ls;
                          tr_action := la;
                          tr_reward := reward;
                          tr_next_state := state;
                          tr_next_action := drawn;
                          tr_is_state_terminal := false;
                          tr_mu := Some mu |})
            | _, _ => raise AssertionError
            end
        | None => ret (replay_buffer a)
        end ;;
  put (set_last a rb (Some state) (Some drawn) (Some out.1)) ;;;
  ret drawn.

Definition act_and_train (state : Obs) (reward : npfloat) (drawn : action) : M action :=
  a <~ get ;;
  put (set_past_rewards a (<[t a - 1 := reward]> (past_rewards a))) ;;;
  (if bool_decide (t a - t_start a = t_max (cfg a))
   then scheduled_updates (Some (phi state))
   else ret tt) ;;;
  observe_and_store state reward drawn.

(** *** act (lines 497-505) *)
Definition act (obs : Obs) (drawn : action) : M action :=
  a <~ get ;;
  let ad := (forward (model a) (phi obs)).1 in
  ret (if act_deterministically (cfg a) then most_probable ad else drawn).

(** *** stop_episode_and_train (lines 507-537) *)
Definition stop_episode_and_train (state : Obs) (reward : npfloat) (done : bool) : M unit :=
  a <~ get ;;
  match last_state a, last_action a with
  | Some ls, Some la =>
      put (set_past_rewards a (<[t a - 1 := reward]> (past_rewards a))) ;;;
      (if done then scheduled_updates None else scheduled_updates (Some (phi state))) ;;;
      a <~ get ;;
      let rb := rb_append (replay_buffer a)
                  {| tr_state := ls;
                     tr_action := la;
                     tr_reward := reward;
                     tr_next_state := state;
                     tr_next_action := la;
                     tr_is_state_terminal := done;
                     tr_mu := last_action_distrib a |} in
      put (set_last a (rb_stop_current_episode rb) None None None)
  | _, _ => raise AssertionError
  end.

(** *** load (lines 551-561)

    A checkpoint file holds the parameters of a model or the state of an
    optimizer; the file system maps paths to files.  The model is loaded
    and copied to the shared model before the optimizer file is looked at. *)

Inductive npz : Type :=
| NpzModel (p : Params)
| NpzOptimizer (o : OptState).

Definition load (fs : gmap string npz) (dirname : string) : M unit :=
  a <~ get ;;
  match fs !! path_join dirname "model.npz" with
  | Some (NpzModel p) =>
      let opt_filename := path_join dirname "optimizer.npz" in
      match fs !! opt_filename with
      | Some (NpzOptimizer o) =>
          put (set_models a p (shared_average_model a) p o)
      | Some (NpzModel _) =>
          put (set_models a p (shared_average_model a) p (optimizer a)) ;;;
          raise (KeyErrorNpz opt_filename)
      | None =>
          put (set_models a p (shared_average_model a) p (optimizer a)) ;;;
          emit (PrintLine ("WARNING: " +:+ opt_filename
                       +:+ " was not found, so loaded only a model"))
      end
  | Some (NpzOptimizer _) => raise (KeyErrorNpz (path_join dirname "model.npz"))
  | None => raise (IOError (path_join dirname "model.npz"))
  end.

End Methods.

(** ** The rest of the file: backprop_truncated, save, the statistics *)

(** backprop_truncated (lines 71-76), a [contextlib.contextmanager]
    generator: [creator] is saved and set to [None], the body of the [with]
    block runs, and the saved [creator] is put back.  There is no
    [try ... finally]: when the body raises, the exception is raised inside
    the generator at its [yield], and the line after the [yield] does not
    run.  The body is a function of the [creator] it finds; it returns or
    raises, and leaves a [creator]. *)
Definition backprop_truncated {C A : Type} (body : option C -> result A * option C)
    (creator : option C) : result A * option C :=
  let backup := creator in
  match body None with
  | (Ok x, _) => (Ok x, backup)
  | (Raise e, left_by_body) => (Raise e, left_by_body)
  end.

Section Checkpoints.
Context `{W : World}.

(** save (lines 544-549): the local model and the optimizer are written
    under [model.npz] and [optimizer.npz].  Directories are implicit in a
    map from paths to files: [makedirs(dirname, exist_ok=True)] adds no
    entry.  The agent is not changed. *)
Definition save (fs : gmap string npz) (dirname : string) (a : agent) : gmap string npz :=
  <[path_join dirname "optimizer.npz" := NpzOptimizer (optimizer a)]>
    (<[path_join dirname "model.npz" := NpzModel (model a)]> fs).

(** get_stats_keys and get_stats_values (lines 563-567). *)
Definition get_stats_keys : string * string := ("average_value", "average_entropy").
Definition get_stats_values (a : agent) : npfloat * npfloat :=
  (average_value a, average_entropy a).

(** The calls a training loop makes on the agent, and a sequence of them. *)
Inductive call : Type :=
| ActAndTrain (state : Obs) (reward : npfloat) (drawn : action)
| StopEpisodeAndTrain (state : Obs) (reward : npfloat) (done : bool).

Definition do_call (c : call) : M unit :=
  match c with
  | ActAndTrain state reward drawn => act_and_train state reward drawn ;;; ret tt
  | StopEpisodeAndTrain state reward done => stop_episode_and_train state reward done
  end.

Fixpoint run (cs : list call) : M unit :=
  match cs with
  | [] => ret tt
  | c :: cs' => do_call c ;;; run cs'
  end.

Definition is_act (c : call) : bool :=
  match c with ActAndTrain _ _ _ => true | _ => false end.

End Checkpoints.

(** ** Definitions used to state the properties *)

Definition finite (x : npfloat) : Prop := exists q, x = Fin q.

(** The plain discounted return of step [i] of an episode with rewards [rs]
    and bootstrap value [R], as a closed-form sum:
    [sum_{j >= i} gamma^(j-i) * rs[j] + gamma^(n-i) * R]. *)
Definition np_pow (x : npfloat) (n : nat) : npfloat :=
  Nat.iter n (NP.mul x) NP.one.

Definition discounted_return (gamma : npfloat) (rs : list npfloat) (R : npfloat)
    (i : nat) : npfloat :=
  NP.add
    (NP.sum (imap (fun j r => NP.mul (np_pow gamma j) r) (drop i rs)))
    (NP.mul (np_pow gamma (length rs - i)) R).

(** The return targets of the steps of a loss graph, in the order the loop
    visits them (last step first). *)
Definition Q_ret_sequence (l : losses) : list npfloat := term_Q_ret <$> terms l.

(** The recursion both loops run on exact numbers, from the last reward
    back: [r + gamma * (return of the rest)], starting from [R]. *)
Fixpoint backward_return (g R : Qc) (qs : list Qc) : Qc :=
  match qs with
  | [] => R
  | r :: qs' => (r + g * backward_return g R qs')%Qc
  end.

(** The calls of the scheduler in a trace. *)
Definition is_call (e : event) : bool :=
  match e with
  | CallUpdateOnPolicy | CallUpdateFromReplay => true
  | _ => false
  end.
Definition calls (tr : list event) : list event := filter (fun e => is_call e = true) tr.

(** Every dict of the window has the key [i]. *)
Definition covers {Obs : Type} (w : window Obs) (i : Z) : Prop :=
  is_Some (states w !! i) /\ is_Some (actions w !! i) /\
  is_Some (rewards w !! i) /\ is_Some (values w !! i) /\
  is_Some (action_values w !! i) /\ is_Some (action_log_probs w !! i) /\
  is_Some (action_entropy w !! i) /\ is_Some (action_distribs w !! i) /\
  is_Some (avg_action_distribs w !! i).

(** A step of the window has every dict and both ratios. *)
Definition complete_step {Obs : Type} (w : window Obs) (i : Z) : Prop :=
  covers w i /\
  exists rh rha, rho w = Some rh /\ rho_a w = Some rha /\
                 is_Some (rh !! i) /\ is_Some (rha !! i).

Section Invariants.
Context `{W : World}.

(** The state [apply_losses] leaves: the optimizer has updated the shared
    model, the local model is a copy of it, and the average model has
    moved towards it. *)
Definition trained (a : agent) (l : losses) : agent :=
  let r := optimizer_update (optimizer a) (shared_model a) (backward (model a) l) in
  set_models a r.2
    (soft_copy_param (shared_average_model a) r.2
       (NP.sub NP.one (trust_region_alpha (cfg a))))
    r.2 r.1.

(** The trajectory window of the agent holds the steps [t_start, t): every
    per-step buffer has them (the reward of the last step is written by
    the next call), and a pending last state means a step was taken. *)
Definition recorded (a : agent) (i : Z) : Prop :=
  is_Some (past_action_log_prob a !! i) /\ is_Some (past_action_entropy a !! i) /\
  is_Some (past_states a !! i) /\ is_Some (past_values a !! i) /\
  is_Some (past_action_distrib a !! i) /\ is_Some (past_avg_action_distrib a !! i).

Definition window_ok (a : agent) : Prop :=
  t_start a <= t a /\
  (forall i, t_start a <= i < t a -> recorded a i) /\
  (forall i, t_start a <= i < t a - 1 -> is_Some (past_rewards a !! i)) /\
  (is_Some (last_state a) ->
     t_start a < t a /\ is_Some (last_action a) /\ is_Some (last_action_distrib a)).

(** What the agent relies on when it samples: a buffer that is not empty
    returns a first episode that is not empty, whose transitions carry the
    behaviour distribution. *)
Definition replay_ok (a : agent) : Prop :=
  rb_len (replay_buffer a) <> 0 ->
  exists ep eps,
    rb_sample_episodes (replay_buffer a) 1 (t_max (cfg a) + 1) = ep :: eps /\
    ep <> [] /\ Forall (fun tr => is_Some (tr_mu tr)) ep.

(** What the agent relies on from its replay buffer, as an invariant [P]
    of the buffer: a buffer that is not empty gives a first episode that is
    not empty, whose transitions carry their behaviour distribution;
    appending such a transition and closing the episode keep [P]. *)
Definition buffer_law (P : ReplayBuffer -> Prop) (max_len : Z) : Prop :=
  (forall rb, P rb -> rb_len rb <> 0 ->
     exists ep eps,
       rb_sample_episodes rb 1 max_len = ep :: eps /\ ep <> [] /\
       Forall (fun x => is_Some (tr_mu x)) ep) /\
  (forall rb x, P rb -> is_Some (tr_mu x) -> P (rb_append rb x)) /\
  (forall rb, P rb -> P (rb_stop_current_episode rb)).

(** [n] calls of [update_from_replay] in a row, each marked in the trace
    and each returning, lead from [a], [tr] to [a'], [tr']. *)
Inductive replays : nat -> agent -> list event -> agent -> list event -> Prop :=
| replays_O (a : agent) (tr : list event) : replays 0 a tr a tr
| replays_S (n : nat) (a a1 a2 : agent) (tr tr1 tr2 : list event) :
    update_from_replay a (tr ++ [CallUpdateFromReplay]) = Ok (tt, a1, tr1) ->
    replays n a1 tr1 a2 tr2 ->
    replays (S n) a tr a2 tr2.

(** The block of updates of lines 443-445 and 513-518, from [a], [tr] to
    [a'], [tr']: one call of [update_on_policy], which returns, then
    [n_times_replay] calls of [update_from_replay]. *)
Definition update_block (statevar : option Obs) (a : agent) (tr : list event)
    (a' : agent) (tr' : list event) : Prop :=
  exists a1 tr1,
    update_on_policy statevar a (tr ++ [CallUpdateOnPolicy]) = Ok (tt, a1, tr1) /\
    replays (Z.to_nat (n_times_replay (cfg a))) a1 tr1 a' tr'.

(** The events of one call of [update_from_replay]. *)
Definition replay_events (a : agent) : list event :=
  if bool_decide (rb_len (replay_buffer a) = 0) then []
  else [SampleEpisodes 1 (t_max (cfg a) + 1); OptimizerUpdate].

(** The agent [a'] is the agent [a] with other models and another
    optimizer state: the counters, the trajectory window, the pending
    transition, the replay buffer and the statistics are those of [a]. *)
Definition same_but_models (a a' : agent) : Prop :=
  a' = set_models a (shared_model a') (shared_average_model a') (model a')
         (optimizer a').

(** The local model is a copy of the shared model. *)
Definition synced (a : agent) : Prop := model a = shared_model a.

(** What every call of the training interface keeps: the window is
    recorded, it holds at most [t_max] steps, and the local model is a
    copy of the shared one. *)
Definition in_step (a : agent) : Prop :=
  window_ok a /\ t a - t_start a <= t_max (cfg a) /\ synced a.

(** The window [w] given to [update] is the trajectory window of the agent. *)
Definition on_policy_view (a : agent) (w : window Obs) : Prop :=
  states w = past_states a /\ rewards w = past_rewards a /\
  values w = past_values a /\ action_log_probs w = past_action_log_prob a /\
  action_entropy w = past_action_entropy a /\
  action_distribs w = past_action_distrib a /\
  avg_action_distribs w = past_avg_action_distrib a.

End Invariants.

(** At step [i] the behaviour policy is the current policy: [rho[i] = 1] and
    every entry of [rho_a[i]] is 1. *)
Definition ratio_one {Obs : Type} (w : window Obs) (i : Z) : Prop :=
  exists rh rha ra,
    rho w = Some rh /\ rho_a w = Some rha /\
    rh !! i = Some NP.one /\ rha !! i = Some ra /\ Forall (fun r => r = NP.one) ra.

(** The numbers of step [i] are finite: the value, the Q-values and the
    gradients of the log-probabilities. *)
Definition finite_step {Obs : Type} (w : window Obs) (i : Z) : Prop :=
  (forall v, values w !! i = Some v -> finite v) /\
  (forall av, action_values w !! i = Some av -> Forall finite (q_values av)) /\
  (forall ad, action_distribs w !! i = Some ad ->
     Forall (fun lp => Forall finite (grad_logits lp)) (all_log_prob ad)).

(** What the comparison of the two update paths asks of step [i]: ratios 1,
    finite numbers, and the two dicts only [update] reads. *)
Definition plain_step {Obs : Type} (w : window Obs) (i : Z) : Prop :=
  ratio_one w i /\ finite_step w i /\
  is_Some (actions w !! i) /\ is_Some (action_values w !! i).

(** The return of step [i] of a window that stops at [t_stop], with the
    operations of line 186 and nothing in between:
    [rewards[i] + gamma * (rewards[i+1] + gamma * (... + gamma * R))]. *)
Definition window_return {Obs : Type} (gamma : npfloat) (w : window Obs) (R : npfloat)
    (t_stop i : Z) : npfloat :=
  foldr (fun j Q_ret => NP.add (default NP.zero (rewards w !! j)) (NP.mul gamma Q_ret))
        R (range i t_stop).

(** The re-basing of line 241 hands the return [T] of step [i] over as it
    is: [min(1, rho[i]) * (T - Q(s_i, a_i)) + V[i] = T], evaluated with the
    operations of the program.  On real numbers with [rho[i] >= 1] this is
    [Q(s_i, a_i) = V[i]]; on floats equal values are not enough, because
    [T - Q] is rounded before [V] is added. *)
Definition rebase_exact {Obs : Type} (w : window Obs) (i : Z) (T : npfloat) : Prop :=
  forall ac av v rh ro,
    actions w !! i = Some ac -> action_values w !! i = Some av ->
    values w !! i = Some v -> rho w = Some rh -> rh !! i = Some ro ->
    NP.add (NP.mul (NP.py_min NP.one ro) (NP.sub T (evaluate_actions av ac))) v = T.

(** ** A small world to run the agent in

    Two actions; the policy is uniform (logits [0; 0]) and the average
    policy puts 3/4 on action 0.  Log-probabilities and entropies are
    irrational: their values are rounded, their gradients with respect to
    the logits (the softmax Jacobian) are exact. *)
Module Toy.

Definition row (p0 p1 : npfloat) (a : action) : vec :=
  if a =? 0 then [NP.sub NP.one p0; NP.neg p1]
  else [NP.neg p0; NP.sub NP.one p1].

Definition categorical (l0 l1 p0 p1 lp0 lp1 ent : npfloat) : distrib :=
  let lp (a : action) :=
    {| data := if a =? 0 then lp0 else lp1;
       grad_logits := row p0 p1 a |} in
  {| logits := [l0; l1];
     all_prob := [p0; p1];
     all_log_prob := [lp 0; lp 1];
     prob := fun a => if a =? 0 then p0 else p1;
     log_prob := lp;
     entropy := ent;
     most_probable := if NP.lt p0 p1 then 1 else 0 |}.

Definition uniform : distrib :=
  categorical NP.zero NP.zero (NP.frac 1 2) (NP.frac 1 2)
    (NP.frac (-693) 1000) (NP.frac (-693) 1000) (NP.frac 693 1000).

Definition skewed : distrib :=
  categorical (NP.frac 11 10) NP.zero (NP.frac 3 4) (NP.frac 1 4)
    (NP.frac (-288) 1000) (NP.frac (-1386) 1000) (NP.frac 562 1000).

(** A saturated behaviour distribution: the softmax of logits [200; 0]
    underflows to the probabilities [1; 0]. *)
Definition greedy : distrib :=
  categorical (NP.frac 200 1) NP.zero NP.one NP.zero NP.zero NInf NP.zero.

Definition q_function (q0 q1 : npfloat) : action_value :=
  {| q_values := [q0; q1];
     evaluate_actions := fun a => if a =? 0 then q0 else q1 |}.

Definition buffer : Type := list (transition Z) * list (list (transition Z)).

Definition episodes (rb : buffer) : list (list (transition Z)) :=
  rb.2 ++ (if bool_decide (rb.1 = []) then [] else [rb.1]).

(** Parameters are a version number; the local model is the uniform
    policy with Q = [1; 1], the average model the skewed policy. *)
Definition world : World :=
  {| Obs := Z; Params := Z; Grads := unit; OptState := Z;
     ReplayBuffer := buffer;
     phi := fun s => s;
     forward := fun p _ =>
       (if p =? 0 then skewed else uniform, q_function NP.one NP.one);
     backward := fun _ _ => tt;
     optimizer_update := fun o p _ => (o + 1, p + 1);
     soft_copy_param := fun target _ _ => target;
     rb_len := fun rb => Z.of_nat (length (concat (episodes rb)));
     rb_sample_episodes := fun rb n max_len =>
       take (Z.to_nat n) (take (Z.to_nat max_len) <$> episodes rb);
     rb_append := fun rb tr => (rb.1 ++ [tr], rb.2);
     rb_stop_current_episode := fun rb => ([], episodes rb) |}.

(** An episode of [length rs] steps with rewards [rs]: at every step the
    policy is [ad], the average policy [avg], the Q-function [av], the
    action taken [ac] and the state value [v]; the behaviour policy is the
    policy itself, so that every importance ratio is 1. *)
Definition keyed {A : Type} (n : nat) (f : Z -> A) : gmap Z A :=
  list_to_map ((fun i => (Z.of_nat i, f (Z.of_nat i))) <$> seq 0 n).

Definition reward_dict (rs : list npfloat) : gmap Z npfloat :=
  list_to_map (imap (fun i r => (Z.of_nat i, r)) rs).

Definition window_of (rs : list npfloat) (ad avg : distrib) (av : action_value)
    (ac : action) (v : npfloat) : window Z :=
  let n := length rs in
  {| states := keyed n (fun i => i);
     actions := keyed n (fun _ => ac);
     rewards := reward_dict rs;
     values := keyed n (fun _ => v);
     action_values := keyed n (fun _ => av);
     action_log_probs := keyed n (fun _ => log_prob ad ac);
     action_entropy := keyed n (fun _ => entropy ad);
     action_distribs := keyed n (fun _ => ad);
     avg_action_distribs := keyed n (fun _ => avg);
     rho := Some (keyed n (fun _ => NP.one));
     rho_a := Some (keyed n (fun _ => [NP.one; NP.one])) |}.

(** The agent whose trajectory window holds the same episode, the steps
    [0 .. length rs - 1], with the local model at version 1 and the average
    model at version 0. *)
Definition agent_of (c : config) (rs : list npfloat) (ad avg : distrib)
    (ac : action) (v : npfloat) (rb : buffer) (last : option Z) : @agent world :=
  let n := length rs in
  {| cfg := c;
     shared_model := 1 : @Params world;
     shared_average_model := 0 : @Params world;
     model := 1 : @Params world;
     optimizer := 0 : @OptState world;
     replay_buffer := rb : @ReplayBuffer world;
     t := Z.of_nat n; t_start := 0;
     past_action_log_prob := keyed n (fun _ => log_prob ad ac);
     past_action_entropy := keyed n (fun _ => entropy ad);
     past_states := keyed n (fun i => i) : gmap Z (@Obs world);
     past_rewards := reward_dict rs;
     past_values := keyed n (fun _ => v);
     past_action_distrib := keyed n (fun _ => ad);
     past_avg_action_distrib := keyed n (fun _ => avg);
     last_state := last : option (@Obs world);
     last_action := (fun _ => ac) <$> last;
     last_action_distrib := (fun _ => ad) <$> last;
     average_value := NP.zero; average_entropy := NP.zero |}.

(** The same window passed as [update] is called by default, with
    [rho = None] and [rho_a = None]. *)
Definition without_rho (w : window Z) : window Z :=
  {| states := states w; actions := actions w; rewards := rewards w;
     values := values w; action_values := action_values w;
     action_log_probs := action_log_probs w; action_entropy := action_entropy w;
     action_distribs := action_distribs w;
     avg_action_distribs := avg_action_distribs w;
     rho := None; rho_a := None |}.

Definition config_09 : config := default_config 2 (NP.frac 9 10).

(** One stored transition, taken under the behaviour policy [mu]. *)
Definition stored (mu : distrib) (ac : action) (terminal : bool) : transition Z :=
  {| tr_state := 7; tr_action := ac; tr_reward := NP.one; tr_next_state := 8;
     tr_next_action := ac; tr_is_state_terminal := terminal; tr_mu := Some mu |}.

Definition checkpoint : gmap string (@npz world) :=
  {[ "run/model.npz" := NpzModel (5 : @Params world) ]}.

(** The buffers the agent fills: no closed episode is empty and every
    transition carries its behaviour distribution. *)
Definition stocked (rb : buffer) : Prop :=
  Forall (fun ep => ep <> [] /\ Forall (fun x => is_Some (tr_mu x)) ep) rb.2 /\
  Forall (fun x : transition Z => is_Some (tr_mu x)) rb.1.

(** A transition stored without its behaviour distribution. *)
Definition forgotten : transition Z :=
  {| tr_state := 7; tr_action := 0; tr_reward := NP.one; tr_next_state := 8;
     tr_next_action := 0; tr_is_state_terminal := true; tr_mu := None |}.

(** The same window with the reward of step [i] not yet written. *)
Definition without_reward (w : window Z) (i : Z) : window Z :=
  {| states := states w; actions := actions w; rewards := delete i (rewards w);
     values := values w; action_values := action_values w;
     action_log_probs := action_log_probs w; action_entropy := action_entropy w;
     action_distribs := action_distribs w;
     avg_action_distribs := avg_action_distribs w;
     rho := rho w; rho_a := rho_a w |}.

End Toy.

(** Unfolding of the monad of methods. *)
Ltac run_method :=
  unfold bind, get, put, emit, ret, raise, lift, assert; simpl.

(** Equality of two closed floats, by computation. *)
Ltac np_eq :=
  vm_compute; first [reflexivity | f_equal; apply Qc_is_canon; reflexivity].

(** Case analysis on [d[i]]: a missing key ends the computation. *)
Ltac miss d i H :=
  destruct (d !! i) eqn:H;
  [|unfold getitem;
    repeat match goal with E : _ !! _ = _ |- _ => rewrite E end;
    reflexivity].

(** * Properties *)

(** ** Arithmetic of [npfloat] *)

Module NPFacts.

Lemma sub_zero x : NP.sub x NP.zero = x.
Proof.
  destruct x as [a| | |]; try reflexivity.
  simpl. f_equal. ring.
Qed.

Lemma mul_one_l x : NP.mul NP.one x = x.
Proof.
  destruct x as [a| | |]; try reflexivity.
  simpl. f_equal. ring.
Qed.

Lemma add_comm x y : NP.add x y = NP.add y x.
Proof.
  destruct x as [a| | |], y as [b| | |]; try reflexivity.
  simpl. f_equal. ring.
Qed.

Lemma mul_comm x y : NP.mul x y = NP.mul y x.
Proof.
  destruct x as [a| | |], y as [b| | |]; try reflexivity.
  simpl. f_equal. ring.
Qed.

Lemma neg_sub x y : NP.neg (NP.sub x y) = NP.sub y x.
Proof.
  destruct x as [a| | |], y as [b| | |]; try reflexivity.
  simpl. f_equal. ring.
Qed.

Lemma mul_neg_neg x : NP.mul (NP.neg x) (NP.neg x) = NP.mul x x.
Proof.
  destruct x as [a| | |]; try reflexivity.
  simpl. f_equal. ring.
Qed.

(** [(a - b) ** 2 = (b - a) ** 2], also at the special values. *)
Lemma square_sub_sym x y :
  NP.mul (NP.sub x y) (NP.sub x y) = NP.mul (NP.sub y x) (NP.sub y x).
Proof. rewrite <- (neg_sub y x). apply mul_neg_neg. Qed.

Lemma mul_zero_fin q : NP.mul NP.zero (Fin q) = NP.zero.
Proof. unfold NP.zero. simpl. f_equal; try ring. Qed.

Lemma add_zero_zero : NP.add NP.zero NP.zero = NP.zero.
Proof. unfold NP.zero. simpl. f_equal; try ring. Qed.

Lemma add_zero_r x : NP.add x NP.zero = x.
Proof.
  destruct x as [a| | |]; try reflexivity.
  simpl. f_equal. ring.
Qed.

(** The dot product of a zero array with a finite array is zero. *)
Lemma dot_zeros_l (k g : vec) :
  Forall (fun x => x = NP.zero) k -> Forall finite g -> NP.dot k g = NP.zero.
Proof.
  intros Hk. revert g. induction Hk as [|x k Hx Hk IH]; intros g Hg.
  - reflexivity.
  - destruct Hg as [|y g [q ->] Hg]; [reflexivity|].
    simpl. rewrite (IH _ Hg), Hx, mul_zero_fin. apply add_zero_zero.
Qed.

Lemma dot_zeros_self (k : vec) :
  Forall (fun x => x = NP.zero) k -> NP.dot k k = NP.zero.
Proof.
  intros Hk. apply dot_zeros_l; [exact Hk|].
  eapply Forall_impl; [exact Hk|]. intros x ->. by exists 0%Qc.
Qed.

Lemma sub_scalar_zero (g : vec) : NP.sub_scalar g NP.zero = g.
Proof.
  unfold NP.sub_scalar. induction g as [|x g IH]; [reflexivity|].
  simpl. by rewrite sub_zero, IH.
Qed.

Lemma div_by_zero a : NP.div (Fin a) NP.zero = NP.signed_inf true a.
Proof. unfold NP.zero. simpl. destruct (decide (0%Qc = 0%Qc)); [reflexivity|done]. Qed.

Lemma div_warning_by_zero a :
  NP.div_warning (Fin a) NP.zero
  = [if decide (a = 0%Qc) then InvalidValue else DivideByZero].
Proof.
  unfold NP.zero. simpl. destruct (decide (0%Qc = 0%Qc)); [|done].
  destruct (decide (a = 0%Qc)); reflexivity.
Qed.

(** Python's [max(0, x)] of a quotient [a / 0] with [a <= 0] is [0]: the
    quotient is [-inf] or NaN, and neither is greater than [0]. *)
Lemma py_max_signed_inf_nonpos a :
  (a <= 0)%Qc -> NP.py_max NP.zero (NP.signed_inf true a) = NP.zero.
Proof.
  intros Ha. unfold NP.signed_inf.
  destruct (Qccompare a 0%Qc) eqn:E; try reflexivity.
  exfalso. apply Ha. exact E.
Qed.

End NPFacts.

(** ** The trust-region projection *)

(** C1.  At [g = [1; -1]], [k = [2; -2]], [delta = 1] the correction scalar
    is [max(0, (4 - 1) / 8) = 3/8].  The expression of lines 230-232 and
    386-388 subtracts it from every component of [g] (numpy broadcasts the
    scalar): [z = [5/8; -11/8]].  The projection of the specification
    multiplies it by [k] first: [z = [1/4; -1/4]].  The two differ: the
    program does not compute the specified projection. *)
Theorem trust_region_z_subtracts_the_scalar :
  let g := [NP.frac 1 1; NP.frac (-1) 1] in
  let k := [NP.frac 2 1; NP.frac (-2) 1] in
  (trust_region_z g k NP.one).1 = [NP.frac 5 8; NP.frac (-11) 8] /\
  trust_region_z_spec g k NP.one = [NP.frac 1 4; NP.frac (-1) 4] /\
  (trust_region_z g k NP.one).1 <> trust_region_z_spec g k NP.one.
Proof.
  assert (E1 : (trust_region_z [NP.frac 1 1; NP.frac (-1) 1]
                  [NP.frac 2 1; NP.frac (-2) 1] NP.one).1
               = [NP.frac 5 8; NP.frac (-11) 8]) by (vm_compute; reflexivity).
  assert (E2 : trust_region_z_spec [NP.frac 1 1; NP.frac (-1) 1]
                 [NP.frac 2 1; NP.frac (-2) 1] NP.one
               = [NP.frac 1 4; NP.frac (-1) 4]) by (vm_compute; reflexivity).
  cbv zeta. split; [exact E1|]. split; [exact E2|].
  rewrite E1, E2. intros H.
  assert (Hq : Qc_of 5 8 = Qc_of 1 4) by (unfold NP.frac in H; congruence).
  apply (f_equal this) in Hq. vm_compute in Hq. discriminate.
Qed.

(** C2, as stated, fails: with [k = [0; 0]] (and [g = [1; -1]], [delta = 1])
    nothing guards the division: [np.dot(k, k) = 0] is the divisor, numpy
    evaluates [-1 / 0 = -inf] and reports a division by zero. *)
Lemma zero_k_division_is_evaluated :
  let g := [NP.frac 1 1; NP.frac (-1) 1] in
  let k := [NP.zero; NP.zero] in
  NP.dot k k = NP.zero /\
  NP.divide (NP.sub (NP.dot k g) NP.one) (NP.dot k k) = (NInf, [DivideByZero]) /\
  trust_region_z g k NP.one = (g, [DivideByZero]) /\
  trust_region_z g k NP.one <> (g, []).
Proof.
  cbv zeta. repeat split; try (vm_compute; reflexivity).
  intros H. vm_compute in H. discriminate.
Qed.

(** C2, amended.  For a finite [g], a zero array [k] and a radius
    [delta >= 0], the projection returns [g] unchanged, and not through a
    guard: the division by [k·k = 0] is evaluated, numpy reports it (a
    division by zero when [delta > 0], an invalid value, NaN, when
    [delta = 0]), and Python's [max(0, ·)] discards the quotient. *)
Theorem projection_zero_k (g k : vec) (d : Qc) :
  Forall finite g ->
  Forall (fun x => x = NP.zero) k ->
  (0 <= d)%Qc ->
  trust_region_z g k (Fin d)
  = (g, [if decide (d = 0%Qc) then InvalidValue else DivideByZero]) /\
  (trust_region_z g k (Fin d)).1 = g.
Proof.
  intros Hg Hk Hd.
  assert (E : trust_region_z g k (Fin d)
              = (g, [if decide (d = 0%Qc) then InvalidValue else DivideByZero])).
  { unfold trust_region_z, NP.divide.
    rewrite (NPFacts.dot_zeros_l k g Hk Hg), (NPFacts.dot_zeros_self k Hk).
    change (NP.sub NP.zero (Fin d)) with (Fin (0 - d)%Qc).
    rewrite NPFacts.div_by_zero, NPFacts.div_warning_by_zero.
    assert (Hle : (0 - d <= 0)%Qc).
    { apply (Qcplus_le_mono_r _ _ d). by ring_simplify. }
    rewrite (NPFacts.py_max_signed_inf_nonpos _ Hle), NPFacts.sub_scalar_zero.
    do 2 f_equal.
    destruct (decide ((0 - d)%Qc = 0%Qc)) as [E0|E0], (decide (d = 0%Qc)) as [E1|E1];
      try reflexivity; exfalso.
    - apply E1. replace d with (0 - (0 - d))%Qc by ring. rewrite E0. ring.
    - apply E0. subst d. ring. }
  split; [exact E|]. by rewrite E.
Qed.

Lemma projection_zero_k_witness :
  trust_region_z [NP.frac 1 1; NP.frac (-1) 1] [NP.zero; NP.zero] (Fin 1%Qc)
  = ([NP.frac 1 1; NP.frac (-1) 1],
     [if decide (1%Qc = 0%Qc) then InvalidValue else DivideByZero]) /\
  (trust_region_z [NP.frac 1 1; NP.frac (-1) 1] [NP.zero; NP.zero] (Fin 1%Qc)).1
  = [NP.frac 1 1; NP.frac (-1) 1].
Proof.
  apply (projection_zero_k [NP.frac 1 1; NP.frac (-1) 1] [NP.zero; NP.zero] 1%Qc).
  - repeat constructor; eexists; reflexivity.
  - repeat constructor.
  - vm_compute. intros H. discriminate H.
Defined.

(** ** The methods, step by step *)

Section MethodFacts.
Context `{W : World}.

Lemma apply_losses_trained (l : losses) (a : agent) (tr : list event) :
  apply_losses l a tr = Ok (tt, trained a l, tr ++ [OptimizerUpdate]).
Proof.
  unfold apply_losses, sync_parameters, trained. run_method.
  destruct (optimizer_update (optimizer a) (shared_model a) (backward (model a) l))
    as [opt shared]. reflexivity.
Qed.

(** [update] either raises what the computation of the losses raises, the
    agent and the trace being as they were, or trains on the losses. *)
Lemma update_run (t0 t1 : Z) (R : npfloat) (w : window Obs) (a : agent) (tr : list event) :
  update t0 t1 R w a tr =
  match update_losses (cfg a) t0 t1 R w with
  | Ok l => Ok (tt, trained a l, tr ++ [OptimizerUpdate])
  | Raise e => Raise (e, a, tr)
  end.
Proof.
  unfold update. run_method.
  destruct (update_losses (cfg a) t0 t1 R w) as [l|e]; [|reflexivity].
  apply apply_losses_trained.
Qed.

(** [update_on_policy] checks [t_start < t], computes the losses of the
    window, trains on them and clears the window. *)
Lemma update_on_policy_run (sv : option Obs) (a : agent) (tr : list event) :
  update_on_policy sv a tr =
  if bool_decide (t_start a < t a) then
    match on_policy_losses a (on_policy_bootstrap a sv) with
    | Ok l => Ok (tt, clear_window (trained a l), tr ++ [OptimizerUpdate])
    | Raise e => Raise (e, a, tr)
    end
  else Raise (AssertionError, a, tr).
Proof.
  unfold update_on_policy. run_method.
  destruct (bool_decide (t_start a < t a)); [|reflexivity]. simpl.
  destruct (on_policy_losses a (on_policy_bootstrap a sv)) as [l|e]; [|reflexivity].
  rewrite apply_losses_trained. reflexivity.
Qed.

End MethodFacts.

(** ** Window lifecycle, empty replay buffer, checkpoints, [rho = None] *)

Section Lifecycle.
Context `{W : World}.

(** C7.  When [update_on_policy] returns, [t_start] is the value [t] had
    before the call ([t] itself is unchanged) and the seven per-step buffers
    are empty dicts. *)
Theorem update_on_policy_resets_window
    (sv : option Obs) (a a' : agent) (tr tr' : list event) :
  update_on_policy sv a tr = Ok (tt, a', tr') ->
  t_start a' = t a /\ t a' = t a /\
  past_rewards a' = ∅ /\ past_states a' = ∅ /\ past_values a' = ∅ /\
  past_action_log_prob a' = ∅ /\ past_action_entropy a' = ∅ /\
  past_action_distrib a' = ∅ /\ past_avg_action_distrib a' = ∅.
Proof.
  rewrite update_on_policy_run.
  destruct (bool_decide (t_start a < t a)); [|discriminate].
  destruct (on_policy_losses a (on_policy_bootstrap a sv)) as [l|e]; [|discriminate].
  intros [= <- <-]. repeat split; reflexivity.
Qed.

(** C8.  With an empty replay buffer [update_from_replay] returns at once:
    the agent (models, optimizer, buffers, counters) is the one it was
    called on and the trace gains no event (no sampling, no optimizer
    step); nothing is raised. *)
Theorem update_from_replay_empty_buffer (a : agent) (tr : list event) :
  rb_len (replay_buffer a) = 0 ->
  update_from_replay a tr = Ok (tt, a, tr).
Proof.
  intros Hlen. unfold update_from_replay. run_method.
  rewrite bool_decide_eq_true_2 by exact Hlen. reflexivity.
Qed.

(** C9.  When the directory holds the parameters of a model under
    [model.npz] and no [optimizer.npz], [load] returns normally: the local
    and the shared model hold the loaded parameters, the optimizer is
    unchanged, and one warning line is printed. *)
Theorem load_without_optimizer_file
    (fs : gmap string npz) (dirname : string) (p : Params)
    (a : agent) (tr : list event) :
  fs !! path_join dirname "model.npz" = Some (NpzModel p) ->
  fs !! path_join dirname "optimizer.npz" = None ->
  exists a',
    load fs dirname a tr
    = Ok (tt, a',
          tr ++ [PrintLine ("WARNING: " +:+ path_join dirname "optimizer.npz"
                        +:+ " was not found, so loaded only a model")]) /\
    model a' = p /\ shared_model a' = p /\
    optimizer a' = optimizer a /\
    shared_average_model a' = shared_average_model a.
Proof.
  intros Hm Ho. exists (set_models a p (shared_average_model a) p (optimizer a)).
  unfold load. run_method. rewrite Hm, Ho. repeat split; reflexivity.
Qed.

(** C10.  With [rho = None] every step of the loop of [update] raises: the
    on-policy branch of [g_loss] is taken, and the step ends on
    [min(1, rho[i])].  So [update] raises on every non-empty window, in its
    first step ([i = t_stop - 1]), before anything is trained (the agent and
    the trace are as they were), and the exception is the TypeError of
    [None[i]] when the dicts have the step. *)
Theorem update_without_rho_raises
    (t0 t1 : Z) (R : npfloat) (w : window Obs) (a : agent) (tr : list event) :
  rho w = None ->
  t0 < t1 ->
  (exists e,
     update_step (cfg a) w (t1 - 1) (R, no_losses) = Raise e /\
     update t0 t1 R w a tr = Raise (e, a, tr)) /\
  (covers w (t1 - 1) -> update t0 t1 R w a tr = Raise (TypeError, a, tr)).
Proof.
  intros Hrho Hlt.
  assert (Hrange : reversed_range t0 t1 = (t1 - 1) :: reversed_range t0 (t1 - 1)).
  { unfold reversed_range, range.
    replace (Z.to_nat (t1 - t0)) with (S (Z.to_nat (t1 - 1 - t0))) by lia.
    rewrite seq_S, map_app, rev_app_distr. simpl. do 2 f_equal. lia. }
  assert (Hstep : exists e, update_step (cfg a) w (t1 - 1) (R, no_losses) = Raise e).
  { unfold update_step, getitem_opt. rewrite Hrho.
    repeat lazymatch goal with
    | |- exists e, result_bind ?m _ = Raise e =>
        destruct m; cbn [result_bind]; [|eexists; reflexivity]
    end.
    eexists; reflexivity. }
  assert (Hty : covers w (t1 - 1) ->
                update_step (cfg a) w (t1 - 1) (R, no_losses) = Raise TypeError).
  { intros ([? Hs] & [? Hac] & [? Hr] & [? Hv] & [? Hav] & [? Hlp] & [? Hen]
            & [? Had] & [? Havg]).
    unfold update_step, getitem_opt, debug_state, getitem.
    rewrite Hrho, Hs, Hac, Hr, Hv, Hav, Hlp, Hen, Had, Havg.
    destruct (bool_decide (process_idx (cfg a) = Some 0)); reflexivity. }
  destruct Hstep as [e He].
  assert (Hupd : update t0 t1 R w a tr = Raise (e, a, tr)).
  { rewrite update_run. unfold update_losses. rewrite Hrange.
    cbn [update_loop]. rewrite He. reflexivity. }
  split.
  - exists e. split; assumption.
  - intros Hc. rewrite Hupd. rewrite (Hty Hc) in He. congruence.
Qed.

End Lifecycle.

(** ** The off-policy step when every importance ratio is 1 *)

Section RatioOne.
Variable c : config.
Variable cq : Qc.
Hypothesis clip : trust_region_c c = Fin cq.
Hypothesis clip_ge_1 : (1 <= cq)%Qc.

Lemma Qc_one_neq_zero : 1%Qc <> 0%Qc.
Proof. intros H. apply (f_equal this) in H. discriminate H. Qed.

(** [rho_bar = min(c, 1) = 1]. *)
Lemma rho_bar_one : NP.py_min (trust_region_c c) NP.one = NP.one.
Proof.
  rewrite clip. unfold NP.py_min, NP.one, NP.lt.
  case_bool_decide as Hlt; [reflexivity|].
  f_equal. apply Qcle_antisym; [by apply Qcnot_lt_le|exact clip_ge_1].
Qed.

(** [max((1 - c) / 1, 0) = 0]. *)
Lemma correction_weight_one (ra : vec) :
  Forall (fun r => r = NP.one) ra ->
  Forall (fun x => x = NP.zero) (correction_weight c ra).
Proof.
  intros Hra. unfold correction_weight. apply Forall_map.
  eapply Forall_impl; [exact Hra|]. intros r ->. simpl.
  rewrite clip. unfold NP.one, NP.zero. simpl.
  destruct (decide (1%Qc = 0%Qc)) as [E|_]; [destruct (Qc_one_neq_zero E)|].
  unfold NP.maximum. simpl.
  assert (Hle : ((1 - cq) / 1 <= 0)%Qc).
  { replace ((1 - cq) / 1)%Qc with (1 - cq)%Qc by (field; exact Qc_one_neq_zero).
    apply (Qcplus_le_mono_r _ _ cq). by ring_simplify. }
  case_bool_decide as Hlt; [reflexivity|].
  f_equal. apply Qcle_antisym; [exact Hle|by apply Qcnot_lt_le].
Qed.

Lemma nth_finite (j : nat) (v : vec) : Forall finite v -> finite (nth j v NP.zero).
Proof.
  intros Hv. revert j. induction Hv as [|x v Hx Hv IH]; intros [|j]; simpl;
    try (by exists 0%Qc); auto.
Qed.

(** The terms of the bias correction have weight zero: they add nothing to
    the gradient. *)
Lemma zero_weight_terms_vanish (cw cadv : vec) (lps : list variable) (j : nat) :
  Forall (fun x => x = NP.zero) cw ->
  Forall finite cadv ->
  Forall (fun lp => Forall finite (grad_logits lp)) lps ->
  foldr (fun t s => NP.add (NP.mul t.1 (nth j t.2 NP.zero)) s) NP.zero
        (zip_with (fun wc lp => (wc, grad_logits lp)) (NP.vmul cw cadv) lps)
  = NP.zero.
Proof.
  intros Hcw. revert cadv lps.
  induction Hcw as [|x cw Hx Hcw IH]; intros cadv lps Hcadv Hlps; [reflexivity|].
  destruct Hcadv as [|y cadv [qy ->] Hcadv]; [reflexivity|].
  destruct Hlps as [|lp lps Hlp Hlps]; [reflexivity|].
  simpl. rewrite (IH _ _ Hcadv Hlps), Hx, NPFacts.mul_zero_fin.
  destruct (nth_finite j _ Hlp) as [qj ->].
  rewrite NPFacts.mul_zero_fin. apply NPFacts.add_zero_zero.
Qed.

(** Lines 200-216: with [rho = 1] and every per-action ratio 1, the
    off-policy [g_loss] has the gradient of the on-policy one. *)
Lemma off_policy_g_is_on_policy_g
    (ra : vec) (lp : variable) (adv : npfloat) (av : action_value) (v : npfloat)
    (ad : distrib) (n : nat) :
  Forall (fun r => r = NP.one) ra ->
  finite v ->
  Forall finite (q_values av) ->
  Forall (fun lp => Forall finite (grad_logits lp)) (all_log_prob ad) ->
  backward_logits n (off_policy_g_loss c NP.one ra lp adv av v ad)
  = backward_logits n (on_policy_g_loss lp adv).
Proof.
  intros Hra [qv ->] Hq Hlps. unfold backward_logits, off_policy_g_loss, on_policy_g_loss.
  apply map_ext. intros j. cbn [foldr fst snd].
  rewrite rho_bar_one, NPFacts.mul_one_l. f_equal.
  apply zero_weight_terms_vanish; [by apply correction_weight_one| |exact Hlps].
  apply Forall_map. eapply Forall_impl; [exact Hq|].
  intros x [qx ->]. simpl. eexists; reflexivity.
Qed.

End RatioOne.

(** ** The two loops *)

Lemma getitem_Some {A : Type} (d : gmap Z A) (k : Z) (x : A) :
  d !! k = Some x -> getitem d k = Ok x.
Proof. unfold getitem. by intros ->. Qed.

Lemma getitem_Ok {A : Type} (d : gmap Z A) (k : Z) (x : A) :
  getitem d k = Ok x -> d !! k = Some x.
Proof. unfold getitem. destruct (d !! k); [by intros [= ->]|discriminate]. Qed.

Lemma reversed_range_cons (t0 t1 : Z) :
  t0 < t1 -> reversed_range t0 t1 = (t1 - 1) :: reversed_range t0 (t1 - 1).
Proof.
  intros Hlt. unfold reversed_range, range.
  replace (Z.to_nat (t1 - t0)) with (S (Z.to_nat (t1 - 1 - t0))) by lia.
  rewrite seq_S, map_app, rev_app_distr. simpl. do 2 f_equal. lia.
Qed.

Lemma reversed_range_nil (t0 t1 : Z) : t1 <= t0 -> reversed_range t0 t1 = [].
Proof.
  intros Hle. unfold reversed_range, range.
  replace (Z.to_nat (t1 - t0)) with 0%nat by lia. reflexivity.
Qed.

Section Loops.
Context {O : Type}.

(** A step of [update] on a window that has it, with importance ratios. *)
Lemma update_step_covered (c : config) (w : window O) (i : Z) (Q : npfloat) (acc : losses)
    r v lp en ad avg ac av rh rha ro ra :
  rewards w !! i = Some r -> values w !! i = Some v ->
  is_Some (states w !! i) ->
  action_log_probs w !! i = Some lp -> action_entropy w !! i = Some en ->
  action_distribs w !! i = Some ad -> avg_action_distribs w !! i = Some avg ->
  actions w !! i = Some ac -> action_values w !! i = Some av ->
  rho w = Some rh -> rho_a w = Some rha ->
  rh !! i = Some ro -> rha !! i = Some ra ->
  let Q1 := NP.add r (NP.mul (gamma c) Q) in
  update_step c w i (Q, acc)
  = Ok (NP.add (NP.mul (NP.py_min NP.one ro) (NP.sub Q1 (evaluate_actions av ac))) v,
        accumulate c i ad en v Q1
          (backward_logits (length (logits ad))
             (off_policy_g_loss c ro ra lp (NP.sub Q1 v) av v ad))
          (grad_logits (compute_discrete_kl avg ad))
          (NP.sub Q1 v) acc).
Proof.
  intros Hr Hv [s Hs] Hlp Hen Had Havg Hac Hav Hrho Hrho_a Hro Hra Q1.
  unfold update_step, getitem_opt, debug_state. rewrite Hrho, Hrho_a.
  rewrite (getitem_Some _ _ _ Hr), (getitem_Some _ _ _ Hv), (getitem_Some _ _ _ Hs),
    (getitem_Some _ _ _ Hlp), (getitem_Some _ _ _ Hen), (getitem_Some _ _ _ Had),
    (getitem_Some _ _ _ Havg), (getitem_Some _ _ _ Hac), (getitem_Some _ _ _ Hav),
    (getitem_Some _ _ _ Hro), (getitem_Some _ _ _ Hra).
  destruct (bool_decide (process_idx c = Some 0)); reflexivity.
Qed.

Lemma Q_ret_sequence_accumulate c i ad en v Q g k sq acc :
  term_Q_ret <$> terms (accumulate c i ad en v Q g k sq acc)
  = (term_Q_ret <$> terms acc) ++ [Q].
Proof. unfold accumulate. cbn [terms]. by rewrite fmap_app. Qed.

End Loops.

Lemma scale_losses_ok (c : config) (n : Z) (acc : losses) :
  0 < n -> exists l, scale_losses c n acc = Ok l.
Proof.
  intros Hn. unfold scale_losses. rewrite bool_decide_eq_false_2 by lia. eauto.
Qed.

Lemma terms_scale_losses (c : config) (n : Z) (acc l : losses) :
  scale_losses c n acc = Ok l -> terms l = terms acc.
Proof.
  unfold scale_losses. destruct (bool_decide (n <= 0)).
  - destruct (_ && _); discriminate.
  - destruct (normalize_loss_by_steps c); intros [= <-]; reflexivity.
Qed.

Lemma range_cons (a b : Z) : a < b -> range a b = a :: range (a + 1) b.
Proof.
  intros Hlt. unfold range.
  replace (Z.to_nat (b - a)) with (S (Z.to_nat (b - (a + 1)))) by lia.
  cbn [seq map]. rewrite <- seq_shift, map_map. f_equal; [lia|].
  apply map_ext. intros k. lia.
Qed.

Lemma range_nil (a b : Z) : b <= a -> range a b = [].
Proof. intros Hle. unfold range. by replace (Z.to_nat (b - a)) with 0%nat by lia. Qed.

Lemma rev_seq_S (m : nat) : rev (seq 0 (S m)) = m :: rev (seq 0 m).
Proof. rewrite seq_S, rev_app_distr. reflexivity. Qed.

Section ReturnRecursion.
Context {O : Type}.

Lemma window_return_stop (gamma : npfloat) (w : window O) (R : npfloat) (t_stop : Z) :
  window_return gamma w R t_stop t_stop = R.
Proof. unfold window_return. by rewrite range_nil. Qed.

Lemma window_return_step (gamma : npfloat) (w : window O) (R : npfloat) (t_stop i : Z)
    (r : npfloat) :
  i < t_stop -> rewards w !! i = Some r ->
  window_return gamma w R t_stop i
  = NP.add r (NP.mul gamma (window_return gamma w R t_stop (i + 1))).
Proof.
  intros Hlt Hr. unfold window_return. rewrite (range_cons i t_stop Hlt).
  cbn [foldr]. by rewrite Hr.
Qed.

(** A case in which the re-basing is exact whatever the arithmetic: ratio 1
    and [Q(s_i, a_i) = V[i] = 0], for [(T - 0) + 0] is [T]. *)
Lemma rebase_exact_zero_values (w : window O) (i : Z) (T : npfloat) :
  ratio_one w i ->
  (forall ac av, actions w !! i = Some ac -> action_values w !! i = Some av ->
                 evaluate_actions av ac = NP.zero) ->
  (forall v, values w !! i = Some v -> v = NP.zero) ->
  rebase_exact w i T.
Proof.
  intros (rh & rha & ra & Hrho & _ & Hro & _) HQ HV ac av v rh' ro Hac Hav Hv Hrh Hro'.
  rewrite Hrho in Hrh. injection Hrh as <-. rewrite Hro in Hro'. injection Hro' as <-.
  rewrite (HQ ac av Hac Hav), (HV v Hv).
  replace (NP.py_min NP.one NP.one) with NP.one
    by (unfold NP.py_min; destruct (NP.lt NP.one NP.one); reflexivity).
  rewrite NPFacts.mul_one_l.
  destruct T as [q| | |]; try reflexivity. unfold NP.zero. cbn. f_equal. ring.
Qed.

Lemma ratio_one_complete (w : window O) (i : Z) :
  covers w i -> ratio_one w i -> complete_step w i.
Proof.
  intros Hc (rh & rha & ra & Hrho & Hrho_a & Hro & Hra & _).
  split; [exact Hc|]. exists rh, rha.
  split; [exact Hrho|]. split; [exact Hrho_a|]. split; by eexists.
Qed.

(** One step of the loop of [update] on a step that has every entry: the
    target of the step is [rewards[i] + gamma * Q_ret], and the value handed
    to the next step is the same number when the re-basing leaves it as it
    is. *)
Lemma update_step_complete (c : config) (w : window O) (i : Z) (Q : npfloat) (acc : losses) :
  complete_step w i ->
  exists r rebased acc',
    rewards w !! i = Some r /\
    update_step c w i (Q, acc) = Ok (rebased, acc') /\
    term_Q_ret <$> terms acc'
      = (term_Q_ret <$> terms acc) ++ [NP.add r (NP.mul (gamma c) Q)] /\
    (rebase_exact w i (NP.add r (NP.mul (gamma c) Q)) ->
     rebased = NP.add r (NP.mul (gamma c) Q)).
Proof.
  intros ((Hs & [ac Hac] & [r Hr] & [v Hv] & [av Hav] & [lp Hlp] & [en Hen]
           & [ad Had] & [avg Havg])
          & rh & rha & Hrho & Hrho_a & [ro Hro] & [ra Hra]).
  exists r. eexists. eexists. split; [exact Hr|]. split; [|split].
  - exact (update_step_covered c w i Q acc _ _ _ _ _ _ _ _ _ _ _ _
             Hr Hv Hs Hlp Hen Had Havg Hac Hav Hrho Hrho_a Hro Hra).
  - apply Q_ret_sequence_accumulate.
  - intros Hex. exact (Hex ac av v rh ro Hac Hav Hv Hrho Hro).
Qed.

End ReturnRecursion.

Section Returns.
Context {O : Type} (c : config) (w : window O) (R : npfloat) (t0 : Z) (n : nat).
Hypothesis Hcomplete : forall i, (i < n)%nat -> complete_step w (t0 + Z.of_nat i).
Hypothesis Hexact :
  forall i, (0 < i < n)%nat ->
    rebase_exact w (t0 + Z.of_nat i)
      (window_return (gamma c) w R (t0 + Z.of_nat n) (t0 + Z.of_nat i)).

(** The loop of [update] from step [t0 + m - 1] down to [t0], entered with
    the return of step [t0 + m]: the targets it records are the returns of
    the steps. *)
Lemma update_loop_returns (m : nat) (Q : npfloat) (acc : losses) :
  (m <= n)%nat ->
  Q = window_return (gamma c) w R (t0 + Z.of_nat n) (t0 + Z.of_nat m) ->
  exists st,
    update_loop c w (reversed_range t0 (t0 + Z.of_nat m)) (Q, acc) = Ok st /\
    term_Q_ret <$> terms st.2
    = (term_Q_ret <$> terms acc)
        ++ ((fun k => window_return (gamma c) w R (t0 + Z.of_nat n) (t0 + Z.of_nat k))
              <$> rev (seq 0 m)).
Proof.
  revert Q acc. induction m as [|m IH]; intros Q acc Hm HQ0.
  - rewrite reversed_range_nil by lia. exists (Q, acc).
    split; [reflexivity|]. cbn. by rewrite app_nil_r.
  - rewrite reversed_range_cons by lia.
    replace (t0 + Z.of_nat (S m) - 1) with (t0 + Z.of_nat m) by lia.
    cbn [update_loop].
    destruct (update_step_complete c w (t0 + Z.of_nat m) Q acc (Hcomplete m ltac:(lia)))
      as (r & rebased & acc' & Hr & E & T & B).
    rewrite E. cbn [result_bind].
    assert (Hstep : NP.add r (NP.mul (gamma c) Q)
                    = window_return (gamma c) w R (t0 + Z.of_nat n) (t0 + Z.of_nat m)).
    { rewrite (window_return_step _ _ _ _ (t0 + Z.of_nat m) r) by (lia || exact Hr).
      rewrite HQ0. do 3 f_equal. lia. }
    rewrite Hstep in T, B.
    destruct m as [|m'].
    + rewrite reversed_range_nil by lia. exists (rebased, acc').
      split; [reflexivity|]. cbn [snd]. rewrite T. reflexivity.
    + destruct (IH rebased acc' ltac:(lia) (B (Hexact (S m') ltac:(lia))))
        as (st & Est & Tst).
      exists st. split; [exact Est|]. rewrite Tst, T, <- app_assoc.
      rewrite (rev_seq_S (S m')). reflexivity.
Qed.

End Returns.

(** ** The return recursion on the three-step episode *)



(** ** Off-policy update against on-policy update *)

Section OnOffPolicy.
Context `{W : World}.
Variables (a : agent) (w : window Obs) (cq : Qc).
Hypothesis view : on_policy_view a w.
Hypothesis clip : trust_region_c (cfg a) = Fin cq.
Hypothesis clip_ge_1 : (1 <= cq)%Qc.

(** The two loop bodies, from the same state: they raise the same
    exception, or accumulate the same losses; the return of the on-policy
    body is [r + gamma * R], and [update] hands the same return to the next
    step when its re-basing leaves that return as it is. *)
Lemma steps_agree (i : Z) (R : npfloat) (acc : losses) :
  plain_step w i ->
  match update_step (cfg a) w i (R, acc), on_policy_step a i (R, acc) with
  | Ok st1, Ok st2 =>
      st1.2 = st2.2 /\
      (exists r, rewards w !! i = Some r /\
                 st2.1 = NP.add r (NP.mul (gamma (cfg a)) R)) /\
      (rebase_exact w i st2.1 -> st1.1 = st2.1)
  | Raise e1, Raise e2 => e1 = e2
  | _, _ => False
  end.
Proof.
  intros ((rh & rha & ra & Hrho & Hrho_a & Hro & Hra & Hones) & (Hfv & Hfq & Hfl)
          & [ac Hac] & [av Hav]).
  destruct view as (Hs & Hr & Hv & Hlp & Hen & Had & Havg).
  unfold update_step, on_policy_step, getitem_opt.
  rewrite <- Hs, <- Hr, <- Hv, <- Hlp, <- Hen, <- Had, <- Havg.
  rewrite Hrho, Hrho_a.
  rewrite (getitem_Some _ _ _ Hro), (getitem_Some _ _ _ Hra),
    (getitem_Some _ _ _ Hac), (getitem_Some _ _ _ Hav).
  destruct (getitem (rewards w) i) as [r|e] eqn:Er; cbn [result_bind]; [|reflexivity].
  apply getitem_Ok in Er.
  destruct (getitem (values w) i) as [v|e] eqn:Ev; cbn [result_bind]; [|reflexivity].
  apply getitem_Ok in Ev.
  destruct (debug_state (cfg a) (states w) i) as [[]|e]; cbn [result_bind]; [|reflexivity].
  destruct (getitem (action_log_probs w) i) as [lp|e]; cbn [result_bind]; [|reflexivity].
  destruct (getitem (action_entropy w) i) as [en|e]; cbn [result_bind]; [|reflexivity].
  destruct (getitem (action_distribs w) i) as [ad|e] eqn:Ead; cbn [result_bind];
    [|reflexivity].
  apply getitem_Ok in Ead.
  destruct (getitem (avg_action_distribs w) i) as [avg|e]; cbn [result_bind];
    [|reflexivity].
  cbn [fst snd].
  rewrite (NPFacts.add_comm (NP.mul R (gamma (cfg a))) r),
    (NPFacts.mul_comm R (gamma (cfg a))).
  set (Q1 := NP.add r (NP.mul (gamma (cfg a)) R)).
  rewrite (off_policy_g_is_on_policy_g (cfg a) cq clip clip_ge_1 ra lp (NP.sub Q1 v)
             av v ad _ Hones (Hfv _ Ev) (Hfq _ Hav) (Hfl _ Ead)).
  split; [|split].
  - unfold accumulate. by rewrite (NPFacts.square_sub_sym Q1 v).
  - exists r. split; [exact Er|reflexivity].
  - intros Hex. exact (Hex ac av v rh NP.one Hac Hav Ev Hrho Hro).
Qed.

(** The two loops from step [t_start + m - 1] down to [t_start], entered
    with the return of step [t_start + m]: the re-basing has to be exact at
    every step but the last one visited, whose re-based return is not
    used. *)
Lemma loops_agree (R : npfloat) (m : nat) (Q : npfloat) (acc : losses) :
  t_start a + Z.of_nat m <= t a ->
  Q = window_return (gamma (cfg a)) w R (t a) (t_start a + Z.of_nat m) ->
  (forall i, t_start a <= i < t_start a + Z.of_nat m -> plain_step w i) ->
  (forall i, t_start a < i < t_start a + Z.of_nat m ->
     rebase_exact w i (window_return (gamma (cfg a)) w R (t a) i)) ->
  match update_loop (cfg a) w
          (reversed_range (t_start a) (t_start a + Z.of_nat m)) (Q, acc),
        on_policy_loop a
          (reversed_range (t_start a) (t_start a + Z.of_nat m)) (Q, acc) with
  | Ok st1, Ok st2 => st1.2 = st2.2
  | Raise e1, Raise e2 => e1 = e2
  | _, _ => False
  end.
Proof.
  revert Q acc. induction m as [|m IH]; intros Q acc Hle HQ Hplain Hex.
  - rewrite reversed_range_nil by lia. reflexivity.
  - rewrite reversed_range_cons by lia.
    replace (t_start a + Z.of_nat (S m) - 1) with (t_start a + Z.of_nat m) by lia.
    cbn [update_loop on_policy_loop].
    pose proof (steps_agree (t_start a + Z.of_nat m) Q acc
                  (Hplain (t_start a + Z.of_nat m) ltac:(lia))) as Hstep.
    destruct (update_step (cfg a) w (t_start a + Z.of_nat m) (Q, acc))
      as [[Q1 acc1]|e1],
      (on_policy_step a (t_start a + Z.of_nat m) (Q, acc)) as [[R2 acc2]|e2];
      cbn [result_bind]; [|destruct Hstep|destruct Hstep|exact Hstep].
    cbn [fst snd] in Hstep. destruct Hstep as (<- & (r & Hr & HR2) & Hreb).
    assert (HT : R2 = window_return (gamma (cfg a)) w R (t a) (t_start a + Z.of_nat m)).
    { rewrite (window_return_step _ _ _ _ (t_start a + Z.of_nat m) r)
        by (lia || exact Hr).
      rewrite HR2, HQ. do 3 f_equal. lia. }
    destruct m as [|m'].
    + rewrite reversed_range_nil by lia. reflexivity.
    + assert (E : Q1 = R2).
      { apply Hreb. rewrite HT. apply Hex. lia. }
      rewrite E. apply IH.
      * lia.
      * exact HT.
      * intros i Hi. apply Hplain. lia.
      * intros i Hi. apply Hex. lia.
Qed.

End OnOffPolicy.

Lemma elem_of_reversed_range (t0 t1 i : Z) : i ∈ reversed_range t0 t1 <-> t0 <= i < t1.
Proof.
  unfold reversed_range, range. rewrite list_elem_of_In, <- in_rev, in_map_iff. split.
  - intros (k & <- & Hk%in_seq). lia.
  - intros Hi. exists (Z.to_nat (i - t0)). split; [lia|]. apply in_seq. lia.
Qed.

Section OnOffEquivalence.
Context `{W : World}.


End OnOffEquivalence.


(** ** Importance ratios of a replayed transition *)

Lemma signed_inf_nonneg (p : Qc) :
  (0 <= p)%Qc ->
  NP.signed_inf true p = if decide (p = 0%Qc) then NaN else PInf.
Proof.
  intros Hp. unfold NP.signed_inf.
  destruct (Qccompare p 0%Qc) eqn:E.
  - apply Qceq_alt in E. subst p. by destruct (decide (0%Qc = 0%Qc)).
  - apply Qclt_alt in E. destruct (Qclt_not_le _ _ E Hp).
  - destruct (decide (p = 0%Qc)) as [->|_]; [discriminate E|reflexivity].
Qed.

(** [max((inf - c) / inf, 0)] is NaN for a finite [c]: [np.maximum]
    propagates the NaN of [inf / inf]. *)
Lemma correction_weight_of_inf (c : config) (cq : Qc) :
  trust_region_c c = Fin cq -> correction_weight c [PInf] = [NaN].
Proof. intros Hc. unfold correction_weight. simpl. rewrite Hc. reflexivity. Qed.

Section Replay.
Context `{W : World}.

(** C6, amended.  When the stored behaviour distribution gives the action
    taken probability zero, [update_from_replay] still divides: numpy
    evaluates [pi(a|s) / 0], reports it, and the quotient ([inf] when
    [pi(a|s) > 0], NaN when [pi(a|s) = 0]) is stored as [rho[t]] in the
    window given to [update]; nothing is clamped or skipped.  For a
    per-action ratio [inf] the bias-correction weight is NaN, not zero. *)
Theorem importance_ratio_is_not_guarded
    (a : agent) (t : Z) (tr : transition Obs) (w : window Obs) (mu : distrib) (p : Qc) :
  let pi := (forward (model a) (phi (tr_state tr))).1 in
  let r := if decide (p = 0%Qc) then NaN else PInf in
  tr_mu tr = Some mu ->
  prob mu (tr_action tr) = NP.zero ->
  prob pi (tr_action tr) = Fin p ->
  (0 <= p)%Qc ->
  importance_ratio pi mu (tr_action tr)
  = (r, [if decide (p = 0%Qc) then InvalidValue else DivideByZero]) /\
  (exists w',
     replay_step a t tr w = Ok w' /\
     rho w' = (fun d => <[t := r]> d) <$> rho w) /\
  (forall cq, trust_region_c (cfg a) = Fin cq ->
     correction_weight (cfg a) [PInf] = [NaN]).
Proof.
  intros pi r Hmu Hzero Hp Hpos.
  assert (E : importance_ratio pi mu (tr_action tr)
              = (r, [if decide (p = 0%Qc) then InvalidValue else DivideByZero])).
  { unfold importance_ratio, NP.divide. rewrite Hzero, Hp.
    rewrite NPFacts.div_by_zero, NPFacts.div_warning_by_zero.
    by rewrite signed_inf_nonneg. }
  split; [exact E|]. split.
  - unfold replay_step. rewrite Hmu. eexists. split; [reflexivity|].
    cbn [rho]. fold pi. by rewrite E.
  - intros cq Hc. exact (correction_weight_of_inf _ _ Hc).
Qed.

End Replay.

(** C6, as stated, fails.  The local policy is uniform over two actions;
    the stored behaviour distribution is saturated (probabilities [1; 0])
    and the action taken is action 0.  The per-action ratio of action 1 is
    [(1/2) / 0]: numpy reports a division by zero and returns [inf], the
    window passed to [update] holds [rho_a[0] = [1/2; inf]], its
    bias-correction weights are [[0; NaN]], and the losses [update] computes
    from it are NaN. *)
Lemma importance_ratio_divides_by_zero :
  let a := Toy.agent_of Toy.config_09 [] Toy.uniform Toy.skewed 0 NP.zero
             ([], [[Toy.stored Toy.greedy 0 true]]) None in
  let episode := [Toy.stored Toy.greedy 0 true] in
  prob Toy.greedy 1 = NP.zero /\
  importance_ratio_all Toy.uniform Toy.greedy = ([NP.frac 1 2; PInf], [DivideByZero]) /\
  exists w l,
    replay_window a 0 episode empty_window = Ok w /\
    rho_a w = Some {[ 0 := [NP.frac 1 2; PInf] ]} /\
    correction_weight (cfg a) [NP.frac 1 2; PInf] = [NP.zero; NaN] /\
    update_losses (cfg a) 0 1 NP.zero w = Ok l /\
    pi_loss l = NaN /\
    (term_z <$> terms l) = [[NaN; NaN]].
Proof.
  cbv zeta. split; [reflexivity|]. split; [vm_compute; reflexivity|].
  eexists. eexists. split; [vm_compute; reflexivity|].
  split; [vm_compute; reflexivity|]. split; [vm_compute; reflexivity|].
  split; [vm_compute; reflexivity|]. split; vm_compute; reflexivity.
Qed.

(** ** The updates return *)

Section UpdatesReturn.
Context `{W : World}.


(** The on-policy loop returns when the buffers have the steps. *)
Lemma on_policy_loop_ok (a : agent) (steps : list Z) (st : npfloat * losses) :
  (forall i, i ∈ steps -> recorded a i /\ is_Some (past_rewards a !! i)) ->
  exists st', on_policy_loop a steps st = Ok st'.
Proof.
  revert st. induction steps as [|i steps IH]; intros [R acc] Hrec; [by eexists|].
  destruct (Hrec i ltac:(left))
    as (([lp Hlp] & [en Hen] & [s Hs] & [v Hv] & [ad Had] & [avg Havg]) & [r Hr]).
  cbn [on_policy_loop]. unfold on_policy_step, debug_state.
  rewrite (getitem_Some _ _ _ Hr), (getitem_Some _ _ _ Hv), (getitem_Some _ _ _ Hs),
    (getitem_Some _ _ _ Hlp), (getitem_Some _ _ _ Hen), (getitem_Some _ _ _ Had),
    (getitem_Some _ _ _ Havg).
  destruct (bool_decide (process_idx (cfg a) = Some 0)); cbn [result_bind];
    apply IH; intros k Hk; apply Hrec; by right.
Qed.

Lemma on_policy_losses_ok (a : agent) (R : npfloat) :
  t_start a < t a ->
  (forall i, t_start a <= i < t a -> recorded a i /\ is_Some (past_rewards a !! i)) ->
  exists l, on_policy_losses a R = Ok l.
Proof.
  intros Hlt Hrec. unfold on_policy_losses.
  destruct (on_policy_loop_ok a (reversed_range (t_start a) (t a)) (R, no_losses))
    as [st ->].
  - intros i Hi%elem_of_reversed_range. by apply Hrec.
  - cbn [result_bind]. apply scale_losses_ok. lia.
Qed.

Lemma update_loop_ok (c : config) (w : window Obs) (steps : list Z) (st : npfloat * losses) :
  (forall i, i ∈ steps -> complete_step w i) ->
  exists st', update_loop c w steps st = Ok st'.
Proof.
  revert st. induction steps as [|i steps IH]; intros [Q acc] Hc; [by eexists|].
  destruct (Hc i ltac:(left))
    as ((Hs & [ac Hac] & [r Hr] & [v Hv] & [av Hav] & [lp Hlp] & [en Hen]
         & [ad Had] & [avg Havg]) & rh & rha & Hrho & Hrho_a & [ro Hro] & [ra Hra]).
  cbn [update_loop].
  rewrite (update_step_covered c w i Q acc _ _ _ _ _ _ _ _ _ _ _ _
             Hr Hv Hs Hlp Hen Had Havg Hac Hav Hrho Hrho_a Hro Hra).
  cbn [result_bind]. apply IH. intros k Hk. apply Hc. by right.
Qed.

Lemma update_losses_ok (c : config) (w : window Obs) (n : Z) (R : npfloat) :
  0 < n ->
  (forall i, 0 <= i < n -> complete_step w i) ->
  exists l, update_losses c 0 n R w = Ok l.
Proof.
  intros Hn Hc. unfold update_losses.
  destruct (update_loop_ok c w (reversed_range 0 n) (R, no_losses)) as [st ->].
  - intros i Hi%elem_of_reversed_range. by apply Hc.
  - cbn [result_bind]. apply scale_losses_ok. lia.
Qed.

End UpdatesReturn.

Section ReplayReturns.
Context `{W : World}.

Lemma replay_step_ok (a : agent) (t : Z) (tr : transition Obs) (w : window Obs) :
  is_Some (tr_mu tr) ->
  is_Some (rho w) -> is_Some (rho_a w) ->
  exists w',
    replay_step a t tr w = Ok w' /\
    is_Some (rho w') /\ is_Some (rho_a w') /\
    complete_step w' t /\
    (forall i, complete_step w i -> complete_step w' i).
Proof.
  intros [mu Hmu] [rh Hrho] [rha Hrho_a].
  unfold replay_step. rewrite Hmu, Hrho, Hrho_a. eexists. split; [reflexivity|].
  split; [by eexists|]. split; [by eexists|]. split.
  - split.
    + unfold covers. cbn. rewrite !lookup_insert_eq. repeat split; by eexists.
    + eexists. eexists. cbn. split; [reflexivity|]. split; [reflexivity|].
      rewrite !lookup_insert_eq. split; by eexists.
  - intros i (Hc & rh' & rha' & Hrh' & Hrha' & Hro & Hra).
    rewrite Hrho in Hrh'. rewrite Hrho_a in Hrha'.
    injection Hrh' as <-. injection Hrha' as <-. split.
    + unfold covers in *. cbn. rewrite !lookup_insert_is_Some'. tauto.
    + eexists. eexists. cbn. split; [reflexivity|]. split; [reflexivity|].
      rewrite !lookup_insert_is_Some'. tauto.
Qed.

Lemma replay_window_ok (a : agent) (episode : list (transition Obs)) (t : Z)
    (w : window Obs) :
  Forall (fun tr => is_Some (tr_mu tr)) episode ->
  is_Some (rho w) -> is_Some (rho_a w) ->
  exists w',
    replay_window a t episode w = Ok w' /\
    (forall i, complete_step w i -> complete_step w' i) /\
    (forall k, (k < length episode)%nat -> complete_step w' (t + Z.of_nat k)).
Proof.
  intros Hmu. revert t w.
  induction Hmu as [|tr episode Htr Hmu IH]; intros t w Hrho Hrho_a.
  - exists w. split; [reflexivity|]. split; [auto|]. intros k Hk. cbn in Hk. lia.
  - destruct (replay_step_ok a t tr w Htr Hrho Hrho_a)
      as (w1 & E1 & Hrho1 & Hrho_a1 & Ht & Hkeep1).
    destruct (IH (t + 1) w1 Hrho1 Hrho_a1) as (w2 & E2 & Hkeep2 & Hnew).
    exists w2. cbn [replay_window]. rewrite E1. cbn [result_bind].
    split; [exact E2|]. split; [auto|].
    intros [|k] Hk.
    + replace (t + Z.of_nat 0) with t by lia. auto.
    + replace (t + Z.of_nat (S k)) with (t + 1 + Z.of_nat k) by lia.
      apply Hnew. cbn in Hk. lia.
Qed.

(** A call of [update_from_replay] on a buffer that samples well returns;
    it changes the models and the optimizer only. *)
Lemma update_from_replay_ok (a : agent) (tr : list event) :
  replay_ok a ->
  exists s v m o,
    update_from_replay a tr = Ok (tt, set_models a s v m o, tr ++ replay_events a).
Proof.
  intros Hrb. unfold update_from_replay, replay_events. run_method.
  case_bool_decide as Hlen.
  - exists (shared_model a), (shared_average_model a), (model a), (optimizer a).
    rewrite app_nil_r. by destruct a.
  - destruct (Hrb Hlen) as (ep & eps & -> & Hne & Hmu).
    destruct (replay_window_ok a ep 0 empty_window Hmu) as (w & -> & _ & Hc);
      [by eexists|by eexists|].
    destruct (last ep) as [last_transition|] eqn:Elast.
    2:{ apply last_None in Elast. by subst ep. }
    rewrite update_run.
    destruct (update_losses_ok (cfg a) w (Z.of_nat (length ep))
                (replay_bootstrap a last_transition)) as [l El].
    + destruct ep; [done|]. cbn. lia.
    + intros i Hi. replace i with (0 + Z.of_nat (Z.to_nat i)) by lia.
      apply Hc. lia.
    + cbn [cfg] in *. rewrite El. unfold trained. do 4 eexists.
      rewrite <- app_assoc. reflexivity.
Qed.

End ReplayReturns.

(** ** The scheduler *)

Section Scheduler.
Context `{W : World}.

Lemma calls_app (l1 l2 : list event) : calls (l1 ++ l2) = calls l1 ++ calls l2.
Proof. unfold calls. apply filter_app. Qed.

Lemma calls_replay_call (a : agent) :
  calls (CallUpdateFromReplay :: replay_events a) = [CallUpdateFromReplay].
Proof. unfold replay_events. case_bool_decide; reflexivity. Qed.

Lemma calls_block (n : nat) (a : agent) :
  calls ([CallUpdateOnPolicy; OptimizerUpdate]
           ++ concat (replicate n (CallUpdateFromReplay :: replay_events a)))
  = CallUpdateOnPolicy :: replicate n CallUpdateFromReplay.
Proof.
  rewrite calls_app. change (calls [CallUpdateOnPolicy; OptimizerUpdate])
    with [CallUpdateOnPolicy]. cbn [app]. f_equal.
  induction n as [|n IH]; [reflexivity|].
  cbn [replicate concat]. by rewrite calls_app, calls_replay_call, IH.
Qed.

(** The loop of lines 444-445 on a buffer the agent can sample from: it
    returns, and it is [n] calls of [update_from_replay]. *)
Lemma replay_loop_replays (n : nat) (a : agent) (tr : list event) :
  replay_ok a ->
  exists s v m o,
    times n (emit CallUpdateFromReplay ;;; update_from_replay) a tr
    = Ok (tt, set_models a s v m o,
          tr ++ concat (replicate n (CallUpdateFromReplay :: replay_events a))) /\
    replays n a tr (set_models a s v m o)
      (tr ++ concat (replicate n (CallUpdateFromReplay :: replay_events a))).
Proof.
  revert a tr. induction n as [|n IH]; intros a tr Hrb.
  - exists (shared_model a), (shared_average_model a), (model a), (optimizer a).
    cbn. rewrite app_nil_r.
    replace (set_models a (shared_model a) (shared_average_model a) (model a)
               (optimizer a)) with a by (by destruct a).
    split; [reflexivity|constructor].
  - destruct (update_from_replay_ok a (tr ++ [CallUpdateFromReplay]) Hrb)
      as (s & v & m & o & E).
    destruct (IH (set_models a s v m o)
                 ((tr ++ [CallUpdateFromReplay]) ++ replay_events a) Hrb)
      as (s' & v' & m' & o' & E' & R').
    exists s', v', m', o'.
    replace (tr ++ concat (replicate (S n) (CallUpdateFromReplay :: replay_events a)))
      with (((tr ++ [CallUpdateFromReplay]) ++ replay_events a)
              ++ concat (replicate n (CallUpdateFromReplay :: replay_events a)))
      by (cbn [replicate concat]; rewrite <- !app_assoc; reflexivity).
    split.
    + cbn [times]. unfold bind at 1. unfold bind at 1. unfold emit at 1.
      rewrite E. exact E'.
    + exact (replays_S _ _ _ _ _ _ _ E R').
Qed.

(** The block of lines 443-445 and 513-518 on a window that has its steps:
    the on-policy update runs to its optimizer step and clears the window,
    then come [n_times_replay] calls of [update_from_replay]. *)
Lemma scheduled_updates_block (sv : option Obs) (a : agent) (tr : list event) :
  t_start a < t a ->
  (forall i, t_start a <= i < t a -> recorded a i /\ is_Some (past_rewards a !! i)) ->
  replay_ok a ->
  exists s v m o tr',
    scheduled_updates sv a tr = Ok (tt, clear_window (set_models a s v m o), tr') /\
    update_block sv a tr (clear_window (set_models a s v m o)) tr' /\
    calls tr' = calls tr ++ CallUpdateOnPolicy
                  :: replicate (Z.to_nat (n_times_replay (cfg a))) CallUpdateFromReplay.
Proof.
  intros Hlt Hrec Hrb.
  destruct (on_policy_losses_ok a (on_policy_bootstrap a sv) Hlt Hrec) as [l El].
  assert (Hup : update_on_policy sv a (tr ++ [CallUpdateOnPolicy])
                = Ok (tt, clear_window (trained a l),
                      (tr ++ [CallUpdateOnPolicy]) ++ [OptimizerUpdate])).
  { rewrite update_on_policy_run, bool_decide_eq_true_2 by exact Hlt.
    rewrite El. reflexivity. }
  destruct (replay_loop_replays (Z.to_nat (n_times_replay (cfg a)))
              (clear_window (trained a l))
              ((tr ++ [CallUpdateOnPolicy]) ++ [OptimizerUpdate]) Hrb)
    as (s & v & m & o & E & Hreplays).
  exists s, v, m, o. eexists. split; [|split].
  - change (scheduled_updates sv a tr)
      with (match update_on_policy sv a (tr ++ [CallUpdateOnPolicy]) with
            | Ok (_, a1, tr1) =>
                times (Z.to_nat (n_times_replay (cfg a)))
                  (emit CallUpdateFromReplay ;;; update_from_replay) a1 tr1
            | Raise e => Raise e
            end).
    rewrite Hup. exact E.
  - eexists _, _. split; [exact Hup|exact Hreplays].
  - rewrite <- !app_assoc, calls_app. f_equal.
    exact (calls_block (Z.to_nat (n_times_replay (cfg a))) (clear_window (trained a l))).
Qed.

End Scheduler.

Section Schedule.
Context `{W : World}.

Lemma act_and_train_run (state : Obs) (reward : npfloat) (drawn : action)
    (a : agent) (tr : list event) :
  act_and_train state reward drawn a tr =
  let a0 := set_past_rewards a (<[t a - 1 := reward]> (past_rewards a)) in
  if bool_decide (t a - t_start a = t_max (cfg a)) then
    match scheduled_updates (Some (phi state)) a0 tr with
    | Ok (_, a1, tr1) => observe_and_store state reward drawn a1 tr1
    | Raise e => Raise e
    end
  else observe_and_store state reward drawn a0 tr.
Proof.
  unfold act_and_train, bind, get, put, ret.
  destruct (bool_decide (t a - t_start a = t_max (cfg a))); reflexivity.
Qed.

Lemma observe_and_store_ok (state : Obs) (reward : npfloat) (drawn : action)
    (a : agent) (tr : list event) :
  (is_Some (last_state a) ->
   is_Some (last_action a) /\ is_Some (last_action_distrib a)) ->
  exists rb,
    observe_and_store state reward drawn a tr
    = Ok (drawn,
          set_last
            (record_step a (phi state) drawn (forward (model a) (phi state)).1
               (state_value (forward (model a) (phi state)))
               (forward (shared_average_model a) (phi state)).1)
            rb (Some state) (Some drawn) (Some (forward (model a) (phi state)).1),
          tr) /\
    match last_state a with
    | None => rb = replay_buffer a
    | Some ls =>
        exists la mu,
          last_action a = Some la /\ last_action_distrib a = Some mu /\
          rb = rb_append (replay_buffer a)
                 {| tr_state := ls; tr_action := la; tr_reward := reward;
                    tr_next_state := state; tr_next_action := drawn;
                    tr_is_state_terminal := false; tr_mu := Some mu |}
    end.
Proof.
  intros Hlast. unfold observe_and_store, bind, get, put, ret, raise.
  cbn [last_state last_action last_action_distrib record_step replay_buffer].
  destruct (last_state a) as [ls|]; [|by eexists].
  destruct (Hlast ltac:(by eexists)) as [[la ->] [mu ->]].
  eexists. split; [reflexivity|]. by eexists _, _.
Qed.

(** The agent [__init__] builds has an empty window that holds its steps. *)
Lemma window_ok_init (c : config) (m : Params) (opt : OptState) (rb : ReplayBuffer) :
  window_ok (init c m opt rb).
Proof.
  unfold window_ok. cbn. split; [lia|]. split; [intros; lia|].
  split; [intros; lia|]. intros [? ?]. done.
Qed.

Lemma window_ok_record (a : agent) (sv : Obs) (drawn : action) (ad : distrib)
    (v : npfloat) (avg : distrib) (rb : ReplayBuffer) (state : Obs) :
  t_start a <= t a ->
  (forall i, t_start a <= i < t a -> recorded a i /\ is_Some (past_rewards a !! i)) ->
  window_ok (set_last (record_step a sv drawn ad v avg) rb
               (Some state) (Some drawn) (Some ad)).
Proof.
  intros Hle Hrec. unfold window_ok, recorded. cbn.
  split; [lia|]. split; [|split].
  - intros i Hi. rewrite !lookup_insert_is_Some'.
    destruct (decide (t a = i)) as [->|Hne]; [tauto|].
    destruct (Hrec i ltac:(lia)) as [Hr _]. unfold recorded in Hr. tauto.
  - intros i Hi. apply Hrec. lia.
  - intros _. split; [lia|]. split; by eexists.
Qed.

(** C5.  The scheduler, one call at a time, on an agent whose window holds
    its steps and whose buffer keeps what the agent relies on ([P]), with
    [t_max >= 1].

    [act_and_train] writes the reward; when the window holds [t_max] steps
    it runs the block of updates ([update_on_policy], which returns, then
    exactly [n_times_replay] calls of [update_from_replay], each returning),
    and otherwise it runs no update; then it observes the new state in the
    agent the block has left.  [stop_episode_and_train] runs the block
    whenever a state is pending, with a terminal bootstrap when [done],
    and closes the episode in the agent the block has left.  Both return,
    and the agent they leave again has a window that holds its steps, a
    buffer with [P] and the same configuration: the statement applies to
    the next call, whatever the sequence of calls. *)
Theorem scheduler_runs_the_update_block
    (P : ReplayBuffer -> Prop) (a : agent) (tr : list event) (state : Obs)
    (reward : npfloat) (drawn : action) (done : bool) :
  buffer_law P (t_max (cfg a) + 1) ->
  P (replay_buffer a) ->
  window_ok a ->
  1 <= t_max (cfg a) ->
  let n := Z.to_nat (n_times_replay (cfg a)) in
  let a0 := set_past_rewards a (<[t a - 1 := reward]> (past_rewards a)) in
  (exists a2 tr2 a',
     (if bool_decide (t a - t_start a = t_max (cfg a))
      then update_block (Some (phi state)) a0 tr a2 tr2 /\
           calls tr2 = calls tr ++ CallUpdateOnPolicy :: replicate n CallUpdateFromReplay
      else a2 = a0 /\ tr2 = tr) /\
     observe_and_store state reward drawn a2 tr2 = Ok (drawn, a', tr2) /\
     act_and_train state reward drawn a tr = Ok (drawn, a', tr2) /\
     window_ok a' /\ P (replay_buffer a') /\ cfg a' = cfg a) /\
  (is_Some (last_state a) ->
   exists a2 tr2 ls la,
     update_block (if done then None else Some (phi state)) a0 tr a2 tr2 /\
     calls tr2 = calls tr ++ CallUpdateOnPolicy :: replicate n CallUpdateFromReplay /\
     last_state a = Some ls /\ last_action a = Some la /\
     let a' :=
       set_last a2
         (rb_stop_current_episode
            (rb_append (replay_buffer a2)
               {| tr_state := ls; tr_action := la; tr_reward := reward;
                  tr_next_state := state; tr_next_action := la;
                  tr_is_state_terminal := done;
                  tr_mu := last_action_distrib a |}))
         None None None in
     stop_episode_and_train state reward done a tr = Ok (tt, a', tr2) /\
     window_ok a' /\ P (replay_buffer a') /\ cfg a' = cfg a).
Proof.
  intros (Hsample & Happend & Hstop) HP (Hle & Hrec & Hrew & Hlast) Htmax n a0.
  assert (Hrb : replay_ok a0).
  { intros Hlen. exact (Hsample _ HP Hlen). }
  assert (Hrec0 : forall i, t_start a0 <= i < t a0 ->
                    recorded a0 i /\ is_Some (past_rewards a0 !! i)).
  { intros i Hi. cbn in Hi. split; [exact (Hrec i Hi)|].
    cbn. rewrite lookup_insert_is_Some'.
    destruct (decide (t a - 1 = i)); [by left|right; apply Hrew; lia]. }
  split.
  - rewrite act_and_train_run. fold a0. cbv zeta.
    case_bool_decide as Htrig.
    + destruct (scheduled_updates_block (Some (phi state)) a0 tr)
        as (s & v & m & o & tr2 & -> & Hblock & Hcalls);
        [cbn; lia|exact Hrec0|exact Hrb|].
      destruct (observe_and_store_ok state reward drawn
                  (clear_window (set_models a0 s v m o)) tr2)
        as (rb & E & Hbuf); [exact (fun H => proj2 (Hlast H))|].
      eexists _, tr2, _. split; [split; [exact Hblock|exact Hcalls]|].
      split; [exact E|]. split; [exact E|]. split; [|split; [|reflexivity]].
      * apply window_ok_record; [cbn; lia|]. intros i Hi. cbn in Hi. lia.
      * cbn [replay_buffer set_last]. cbn in Hbuf.
        destruct (last_state a) as [ls|]; [|by subst rb].
        destruct Hbuf as (la & mu & _ & _ & ->). apply Happend; [exact HP|by eexists].
    + destruct (observe_and_store_ok state reward drawn a0 tr)
        as (rb & E & Hbuf); [exact (fun H => proj2 (Hlast H))|].
      eexists a0, tr, _. split; [by split|].
      split; [exact E|]. split; [exact E|]. split; [|split; [|reflexivity]].
      * apply window_ok_record; [exact Hle|exact Hrec0].
      * cbn [replay_buffer set_last]. cbn in Hbuf.
        destruct (last_state a) as [ls|]; [|by subst rb].
        destruct Hbuf as (la & mu & _ & _ & ->). apply Happend; [exact HP|by eexists].
  - intros Hsome. destruct (Hlast Hsome) as (Hlt & [la Hla] & [mu Hmu]).
    destruct Hsome as [ls Hls].
    destruct (scheduled_updates_block (if done then None else Some (phi state)) a0 tr)
      as (s & v & m & o & tr2 & E & Hblock & Hcalls);
      [exact Hlt|exact Hrec0|exact Hrb|].
    exists (clear_window (set_models a0 s v m o)), tr2, ls, la.
    split; [exact Hblock|]. split; [exact Hcalls|].
    split; [exact Hls|]. split; [exact Hla|]. cbv zeta.
    split; [|split; [|split; [|reflexivity]]].
    + unfold stop_episode_and_train, bind, get, put. rewrite Hls, Hla. fold a0.
      destruct done; rewrite E; reflexivity.
    + unfold window_ok. cbn. split; [lia|]. split; [intros; lia|].
      split; [intros; lia|]. intros [? ?]. done.
    + cbn [replay_buffer set_last clear_window set_models set_past_rewards a0].
      apply Hstop, Happend; [exact HP|]. rewrite Hmu. by eexists.
Qed.

End Schedule.

(** ** The statements at concrete inputs *)



Lemma toy_episodes_stocked (rb : Toy.buffer) :
  Toy.stocked rb ->
  Forall (fun ep => ep <> [] /\ Forall (fun x => is_Some (tr_mu x)) ep) (Toy.episodes rb).
Proof.
  intros [H2 H1]. unfold Toy.episodes. apply Forall_app. split; [exact H2|].
  case_bool_decide as Hnil; [constructor|]. by repeat constructor.
Qed.

(** The list buffer of the small world keeps what the agent relies on. *)
Lemma toy_buffer_law (max_len : Z) :
  1 <= max_len -> buffer_law (W := Toy.world) Toy.stocked max_len.
Proof.
  intros Hmax. split; [|split].
  - intros rb Hrb Hlen. apply toy_episodes_stocked in Hrb.
    cbn [rb_len rb_sample_episodes Toy.world] in *.
    destruct (Toy.episodes rb) as [|e0 rest]; [done|].
    apply Forall_cons in Hrb as [[Hne Hmu] _].
    exists (take (Z.to_nat max_len) e0), []. split; [reflexivity|]. split.
    + destruct e0 as [|x e0]; [done|].
      replace (Z.to_nat max_len) with (S (Z.to_nat (max_len - 1))) by lia. done.
    + by apply Forall_take.
  - intros rb x [H2 H1] Hx. split; [exact H2|].
    cbn. apply Forall_app. split; [exact H1|by repeat constructor].
  - intros rb Hrb. split; [|constructor].
    cbn. by apply toy_episodes_stocked.
Qed.

Lemma scheduler_runs_the_update_block_witness :
  let a := Toy.agent_of Toy.config_09 [NP.frac 1 1; NP.frac 1 1] Toy.uniform Toy.skewed 0
             NP.one ([], [[Toy.stored Toy.uniform 0 false]]) (Some 5) in
  let n := Z.to_nat (n_times_replay (cfg a)) in
  let a0 := set_past_rewards a (<[t a - 1 := NP.one]> (past_rewards a)) in
  (exists a2 tr2 a',
     (if bool_decide (t a - t_start a = t_max (cfg a))
      then update_block (W := Toy.world) (Some (phi (6 : @Obs Toy.world))) a0 [] a2 tr2 /\
           calls tr2 = calls [] ++ CallUpdateOnPolicy :: replicate n CallUpdateFromReplay
      else a2 = a0 /\ tr2 = []) /\
     observe_and_store (W := Toy.world) 6 NP.one 1 a2 tr2 = Ok (1, a', tr2) /\
     act_and_train (W := Toy.world) 6 NP.one 1 a [] = Ok (1, a', tr2) /\
     window_ok a' /\ Toy.stocked (replay_buffer a') /\ cfg a' = cfg a) /\
  (is_Some (last_state a) ->
   exists a2 tr2 ls la,
     update_block (W := Toy.world) (if true then None else Some (phi (6 : @Obs Toy.world)))
       a0 [] a2 tr2 /\
     calls tr2 = calls [] ++ CallUpdateOnPolicy :: replicate n CallUpdateFromReplay /\
     last_state a = Some ls /\ last_action a = Some la /\
     let a' :=
       set_last a2
         (rb_stop_current_episode
            (rb_append (replay_buffer a2)
               {| tr_state := ls; tr_action := la; tr_reward := NP.one;
                  tr_next_state := 6; tr_next_action := la;
                  tr_is_state_terminal := true;
                  tr_mu := last_action_distrib a |}))
         None None None in
     stop_episode_and_train (W := Toy.world) 6 NP.one true a [] = Ok (tt, a', tr2) /\
     window_ok a' /\ Toy.stocked (replay_buffer a') /\ cfg a' = cfg a).
Proof.
  exact (scheduler_runs_the_update_block (W := Toy.world) Toy.stocked
           (Toy.agent_of Toy.config_09 [NP.frac 1 1; NP.frac 1 1] Toy.uniform Toy.skewed 0
              NP.one ([], [[Toy.stored Toy.uniform 0 false]]) (Some 5))
           [] 6 NP.one 1 true
           (toy_buffer_law 3 ltac:(lia))
           ltac:(split; repeat constructor; (done || by eexists))
           ltac:(split; [cbn; lia|]; split; [|split];
                 [intros i Hi; cbn in Hi; assert (Hc : i = 0 \/ i = 1) by lia;
                  destruct Hc as [-> | ->]; repeat split; vm_compute; eexists; reflexivity
                 |intros i Hi; cbn in Hi; assert (i = 0) as -> by lia;
                  vm_compute; eexists; reflexivity
                 |intros _; split; [cbn; lia|]; split; vm_compute; eexists; reflexivity])
           ltac:(vm_compute; discriminate)).
Defined.

Lemma importance_ratio_is_not_guarded_witness :
  let a := Toy.agent_of Toy.config_09 [] Toy.uniform Toy.skewed 0 NP.zero ([], []) None in
  let tr := Toy.stored Toy.greedy 1 true in
  prob Toy.greedy (tr_action tr) = NP.zero /\
  (importance_ratio (@forward Toy.world (model a) (@phi Toy.world (tr_state tr))).1
     Toy.greedy (tr_action tr)
   = (if decide (Qc_of 1 2 = 0%Qc) then NaN else PInf,
      [if decide (Qc_of 1 2 = 0%Qc) then InvalidValue else DivideByZero]) /\
   (exists w',
      replay_step a 0 tr empty_window = Ok w' /\
      rho w' = (fun d => <[0 := if decide (Qc_of 1 2 = 0%Qc) then NaN else PInf]> d)
                 <$> rho (empty_window (W := Toy.world))) /\
   (forall cq, trust_region_c (cfg a) = Fin cq ->
      correction_weight (cfg a) [PInf] = [NaN])).
Proof.
  cbv zeta. split; [reflexivity|].
  apply (importance_ratio_is_not_guarded (W := Toy.world)
           (Toy.agent_of Toy.config_09 [] Toy.uniform Toy.skewed 0 NP.zero ([], []) None)
           0 (Toy.stored Toy.greedy 1 true) empty_window Toy.greedy (Qc_of 1 2)).
  - reflexivity.
  - reflexivity.
  - reflexivity.
  - vm_compute. intros H. discriminate H.
Defined.

Lemma update_on_policy_resets_window_witness :
  let a := Toy.agent_of Toy.config_09 [NP.frac 1 1; NP.frac 1 1] Toy.uniform Toy.skewed 0
             NP.one ([], []) (Some 5) in
  exists a' tr',
    update_on_policy (W := Toy.world) (Some 6) a [] = Ok (tt, a', tr') /\
    t_start a' = 2 /\ t a' = 2 /\
    past_rewards a' = ∅ /\ past_states a' = ∅ /\ past_values a' = ∅ /\
    past_action_log_prob a' = ∅ /\ past_action_entropy a' = ∅ /\
    past_action_distrib a' = ∅ /\ past_avg_action_distrib a' = ∅.
Proof.
  cbv zeta.
  destruct (update_on_policy (W := Toy.world) (Some 6)
              (Toy.agent_of Toy.config_09 [NP.frac 1 1; NP.frac 1 1] Toy.uniform Toy.skewed 0
                 NP.one ([], []) (Some 5)) [])
    as [[[[] a'] tr']|e] eqn:E.
  - exists a', tr'. split; [reflexivity|].
    exact (update_on_policy_resets_window (W := Toy.world) (Some 6) _ a' [] tr' E).
  - vm_compute in E. discriminate E.
Defined.

Lemma update_from_replay_empty_buffer_witness :
  let a := Toy.agent_of Toy.config_09 [NP.frac 1 1] Toy.uniform Toy.skewed 0
             NP.one ([], []) None in
  rb_len (replay_buffer a) = 0 /\
  update_from_replay (W := Toy.world) a [CallUpdateFromReplay]
  = Ok (tt, a, [CallUpdateFromReplay]).
Proof.
  cbv zeta. split; [reflexivity|].
  apply (update_from_replay_empty_buffer (W := Toy.world)
           (Toy.agent_of Toy.config_09 [NP.frac 1 1] Toy.uniform Toy.skewed 0
              NP.one ([], []) None) [CallUpdateFromReplay]).
  reflexivity.
Defined.

Lemma load_without_optimizer_file_witness :
  let a := Toy.agent_of Toy.config_09 [] Toy.uniform Toy.skewed 0 NP.zero ([], []) None in
  Toy.checkpoint !! path_join "run" "optimizer.npz" = None /\
  exists a',
    load (W := Toy.world) Toy.checkpoint "run" a []
    = Ok (tt, a',
          [] ++ [PrintLine ("WARNING: " +:+ path_join "run" "optimizer.npz"
                        +:+ " was not found, so loaded only a model")]) /\
    model a' = 5 /\ shared_model a' = 5 /\
    optimizer a' = optimizer a /\
    shared_average_model a' = shared_average_model a.
Proof.
  cbv zeta. split; [vm_compute; reflexivity|].
  apply (load_without_optimizer_file (W := Toy.world) Toy.checkpoint "run" 5
           (Toy.agent_of Toy.config_09 [] Toy.uniform Toy.skewed 0 NP.zero ([], []) None)
           []).
  - vm_compute. reflexivity.
  - vm_compute. reflexivity.
Defined.

Lemma update_without_rho_raises_witness :
  let a := Toy.agent_of Toy.config_09 [] Toy.uniform Toy.skewed 0 NP.zero ([], []) None in
  let w := Toy.without_rho
             (Toy.window_of [NP.frac 1 1; NP.frac 1 1] Toy.uniform Toy.skewed
                (Toy.q_function NP.one NP.one) 0 NP.one) in
  (exists e,
     update_step (cfg a) w (2 - 1) (NP.zero, no_losses) = Raise e /\
     update (W := Toy.world) 0 2 NP.zero w a [] = Raise (e, a, [])) /\
  (covers w (2 - 1) ->
   update (W := Toy.world) 0 2 NP.zero w a [] = Raise (TypeError, a, [])).
Proof.
  cbv zeta.
  apply (update_without_rho_raises (W := Toy.world) 0 2 NP.zero
           (Toy.without_rho
              (Toy.window_of [NP.frac 1 1; NP.frac 1 1] Toy.uniform Toy.skewed
                 (Toy.q_function NP.one NP.one) 0 NP.one))
           (Toy.agent_of Toy.config_09 [] Toy.uniform Toy.skewed 0 NP.zero ([], []) None)
           []).
  - reflexivity.
  - lia.
Defined.

(** * Further properties of the code *)

(** ** The trust-region expression when the constraint holds *)

Lemma Qc_square_nonneg (a : Qc) : (0 <= a * a)%Qc.
Proof.
  destruct (Qclt_le_dec a 0) as [Hneg|Hpos].
  - replace (a * a)%Qc with ((- a) * (- a))%Qc by ring.
    assert (0 <= - a)%Qc.
    { apply (Qcplus_le_mono_r _ _ a). ring_simplify. by apply Qclt_le_weak. }
    by apply Qcmult_nonneg_nonneg.
  - by apply Qcmult_nonneg_nonneg.
Qed.

(** [np.dot(k, k)] is finite only for a finite [k], and is then a sum of
    squares. *)
Lemma dot_self_finite (k : vec) (kk : Qc) :
  NP.dot k k = Fin kk -> Forall finite k /\ (0 <= kk)%Qc.
Proof.
  revert kk. induction k as [|x k IH]; intros kk H.
  - cbn in H. injection H as <-. split; [constructor|]. apply Qcle_refl.
  - cbn [NP.dot] in H.
    destruct x as [a| | |]; cbn in H;
      destruct (NP.dot k k) as [b| | |] eqn:E; try discriminate H.
    injection H as <-. destruct (IH b eq_refl) as [Hk Hb]. split.
    + constructor; [by eexists|exact Hk].
    + apply Qcplus_nonneg_nonneg; [apply Qc_square_nonneg|exact Hb].
Qed.

Lemma py_max_zero_nonpos (x : Qc) : (x <= 0)%Qc -> NP.py_max NP.zero (Fin x) = NP.zero.
Proof.
  intros Hx. unfold NP.py_max, NP.zero, NP.lt.
  case_bool_decide as Hlt; [|reflexivity]. destruct (Qclt_not_le _ _ Hlt Hx).
Qed.

Lemma vsub_scale_zero (g k : vec) :
  length k = length g -> Forall finite k -> NP.vsub g (NP.scale NP.zero k) = g.
Proof.
  revert k. induction g as [|x g IH]; intros [|y k] Hlen Hk; try discriminate Hlen;
    [reflexivity|].
  apply Forall_cons in Hk as [[q ->] Hk]. cbn.
  change (Fin (0 * q)) with (NP.mul NP.zero (Fin q)).
  rewrite NPFacts.mul_zero_fin, NPFacts.sub_zero. f_equal.
  apply IH; [by injection Hlen|exact Hk].
Qed.

(** X1.  When the constraint holds for the raw gradient ([k·g <= delta], with
    [k·k] finite and not zero), lines 230-232 and 386-388 return [g] itself
    and numpy reports nothing; this is also what the projection of the
    specification returns.  The two differ only where the constraint is
    violated. *)
Theorem trust_region_constraint_inactive (g k : vec) (kg kk d : Qc) :
  NP.dot k g = Fin kg ->
  NP.dot k k = Fin kk ->
  kk <> 0%Qc ->
  (kg <= d)%Qc ->
  trust_region_z g k (Fin d) = (g, []) /\
  (length k = length g -> trust_region_z_spec g k (Fin d) = g).
Proof.
  intros Hkg Hkk Hne Hle.
  destruct (dot_self_finite k kk Hkk) as [Hfin Hpos].
  assert (Hq : NP.div (NP.sub (NP.dot k g) (Fin d)) (NP.dot k k)
               = Fin ((kg - d) / kk)%Qc).
  { rewrite Hkg, Hkk. cbn. by destruct (decide (kk = 0%Qc)). }
  assert (Hnonpos : ((kg - d) / kk <= 0)%Qc).
  { assert (Hkk_pos : (0 < kk)%Qc).
    { destruct (Qclt_le_dec 0 kk) as [?|Hle0]; [done|].
      destruct Hne. by apply Qcle_antisym. }
    unfold Qcdiv. replace 0%Qc with (0 * / kk)%Qc by ring.
    apply Qcmult_le_mono_nonneg_r; [apply Qclt_le_weak; by apply Qcinv_pos|].
    apply (Qcplus_le_mono_r _ _ d). by ring_simplify. }
  split.
  - unfold trust_region_z, NP.divide. rewrite Hq, (py_max_zero_nonpos _ Hnonpos).
    rewrite NPFacts.sub_scalar_zero. f_equal.
    rewrite Hkg, Hkk. cbn. by destruct (decide (kk = 0%Qc)).
  - intros Hlen. unfold trust_region_z_spec. cbv zeta.
    rewrite Hq, (py_max_zero_nonpos _ Hnonpos). by apply vsub_scale_zero.
Qed.

Lemma trust_region_constraint_inactive_witness :
  let g := [NP.frac 1 1; NP.frac (-1) 1] in
  let k := [NP.frac 1 4; NP.frac (-1) 4] in
  trust_region_z g k (Fin 1%Qc) = (g, []) /\
  (length k = length g -> trust_region_z_spec g k (Fin 1%Qc) = g).
Proof.
  cbv zeta.
  apply (trust_region_constraint_inactive
           [NP.frac 1 1; NP.frac (-1) 1] [NP.frac 1 4; NP.frac (-1) 4]
           (Qc_of 1 2) (Qc_of 1 8) 1%Qc).
  - np_eq.
  - np_eq.
  - intros H. apply (f_equal this) in H. vm_compute in H. discriminate H.
  - vm_compute. intros H. discriminate H.
Defined.

Lemma sum_of_finite (kq : list Qc) :
  NP.sum (Fin <$> kq) = Fin (foldr Qcplus 0%Qc kq).
Proof.
  unfold NP.sum. induction kq as [|x kq IH]; [reflexivity|].
  cbn. change (map Fin ?l) with (Fin <$> l). by rewrite IH.
Qed.

(** ** compute_discrete_kl and backprop_truncated *)

Lemma sum_of_zero_terms (ps ls : list Qc) :
  NP.sum (zip_with NP.mul (Fin <$> ps) (zip_with NP.sub (Fin <$> ls) (Fin <$> ls)))
  = NP.zero.
Proof.
  unfold NP.sum. revert ls. induction ps as [|x ps IH]; intros [|y ls]; try reflexivity.
  cbn. change (map Fin ?l) with (Fin <$> l). rewrite IH.
  unfold NP.zero. cbn. f_equal. ring.
Qed.

Lemma sum_with_nan (u : vec) (i : nat) : u !! i = Some NaN -> NP.sum u = NaN.
Proof.
  unfold NP.sum. revert i. induction u as [|x u IH]; intros [|i] H; try discriminate H.
  - injection H as ->. reflexivity.
  - cbn. rewrite (IH i H). by destruct x.
Qed.

(** X3.  The value of [compute_discrete_kl(p, p)] (line 68): it is 0 when
    the probabilities and log-probabilities of [p] are finite, and NaN as
    soon as one action has log-probability [-inf] (probability zero):
    [-inf - -inf] is NaN and the sum keeps it. *)
Theorem kl_of_a_distribution_with_itself (p : distrib) :
  (forall ps ls : list Qc,
     all_prob p = Fin <$> ps -> data <$> all_log_prob p = Fin <$> ls ->
     data (compute_discrete_kl p p) = NP.zero) /\
  (forall (i : nat) (x : npfloat),
     all_prob p !! i = Some x -> (data <$> all_log_prob p) !! i = Some NInf ->
     data (compute_discrete_kl p p) = NaN).
Proof.
  split.
  - intros ps ls Hp Hl. cbn. rewrite Hp, Hl. apply sum_of_zero_terms.
  - intros i x Hp Hl. cbn. apply (sum_with_nan _ i).
    rewrite lookup_zip_with, Hp. cbn. rewrite lookup_zip_with, Hl. cbn.
    by destruct x.
Qed.

(** X4.  [backprop_truncated] (lines 71-76) puts the saved [creator] back
    when the block returns, whatever the block did to it; when the block
    raises, [creator] stays as the block left it, and the saved value is
    lost: a later block that returns puts back what it found, not the
    original. *)
Theorem backprop_truncated_restores_on_return_only
    {C A : Type} (body body' : option C -> result A * option C) (c : C) :
  (forall x left_by_body,
     body None = (Ok x, left_by_body) ->
     backprop_truncated body (Some c) = (Ok x, Some c)) /\
  (forall e,
     body None = (Raise e, None) ->
     backprop_truncated body (Some c) = (Raise e, None) /\
     forall x left_by_body,
       body' None = (Ok x, left_by_body) ->
       backprop_truncated body' (backprop_truncated body (Some c)).2 = (Ok x, None)).
Proof.
  split.
  - intros x l H. unfold backprop_truncated. by rewrite H.
  - intros e H. unfold backprop_truncated. rewrite H. split; [reflexivity|].
    intros x l H'. cbn. by rewrite H'.
Qed.

Lemma kl_of_a_distribution_with_itself_witness :
  data (compute_discrete_kl Toy.uniform Toy.uniform) = NP.zero /\
  data (compute_discrete_kl Toy.greedy Toy.greedy) = NaN.
Proof.
  split.
  - apply (proj1 (kl_of_a_distribution_with_itself Toy.uniform)
             [Qc_of 1 2; Qc_of 1 2] [Qc_of (-693) 1000; Qc_of (-693) 1000]);
      reflexivity.
  - apply (proj2 (kl_of_a_distribution_with_itself Toy.greedy) 1%nat NP.zero);
      reflexivity.
Defined.

Lemma backprop_truncated_restores_on_return_only_witness :
  backprop_truncated (fun _ : option nat => (Ok tt, Some 7%nat)) (Some 3%nat)
  = (Ok tt, Some 3%nat) /\
  backprop_truncated (fun c : option nat => (@Raise exn unit TypeError, c)) (Some 3%nat)
  = (Raise TypeError, None) /\
  backprop_truncated (fun c : option nat => (Ok tt, c))
    (backprop_truncated (fun c : option nat => (@Raise exn unit TypeError, c)) (Some 3%nat)).2
  = (Ok tt, None).
Proof.
  split; [|split].
  - apply (proj1 (backprop_truncated_restores_on_return_only
                    (fun _ : option nat => (Ok tt, Some 7%nat))
                    (fun c : option nat => (Ok tt, c)) 3%nat) tt (Some 7%nat)).
    reflexivity.
  - apply (proj2 (backprop_truncated_restores_on_return_only
                    (fun c : option nat => (@Raise exn unit TypeError, c))
                    (fun c : option nat => (Ok tt, c)) 3%nat) TypeError).
    reflexivity.
  - apply (proj2 (proj2 (backprop_truncated_restores_on_return_only
                           (fun c : option nat => (@Raise exn unit TypeError, c))
                           (fun c : option nat => (Ok tt, c)) 3%nat)
                          TypeError eq_refl) tt None).
    reflexivity.
Defined.

(** ** update: empty windows, missing keys, what it changes *)

Lemma update_loop_app {O : Type} (c : config) (w : window O) (l1 l2 : list Z)
    (st : npfloat * losses) :
  update_loop c w (l1 ++ l2) st
  = (st' <- update_loop c w l1 st ;; update_loop c w l2 st')%py.
Proof.
  revert st. induction l1 as [|i l1 IH]; intros st; [reflexivity|].
  cbn [app update_loop]. destruct (update_step c w i st) as [st'|e]; [|reflexivity].
  cbn [result_bind]. apply IH.
Qed.

Lemma reversed_range_split (t0 i t1 : Z) :
  t0 <= i < t1 ->
  reversed_range t0 t1 = reversed_range (i + 1) t1 ++ i :: reversed_range t0 i.
Proof.
  intros Hi. replace t1 with (i + 1 + Z.of_nat (Z.to_nat (t1 - i - 1))) by lia.
  induction (Z.to_nat (t1 - i - 1)) as [|n IH].
  - replace (i + 1 + Z.of_nat 0) with (i + 1) by lia.
    rewrite (reversed_range_cons t0 (i + 1)) by lia.
    rewrite (reversed_range_nil (i + 1) (i + 1)) by lia.
    cbn [app]. do 2 f_equal; lia.
  - rewrite (reversed_range_cons t0 (i + 1 + Z.of_nat (S n))) by lia.
    rewrite (reversed_range_cons (i + 1) (i + 1 + Z.of_nat (S n))) by lia.
    replace (i + 1 + Z.of_nat (S n) - 1) with (i + 1 + Z.of_nat n) by lia.
    rewrite IH. reflexivity.
Qed.

Section UpdateEdges.
Context `{W : World}.

(** X5.  [update] on an empty window ([t_stop <= t_start]) raises before any
    gradient is applied, the agent and the trace being as they were: the
    loop does not run, the losses are still Python numbers, and either the
    normalisation divides by zero ([t_stop = t_start] with
    [normalize_loss_by_steps]) or [pi_loss.data] does not exist. *)
Theorem update_on_an_empty_window_raises
    (t0 t1 : Z) (R : npfloat) (w : window Obs) (a : agent) (tr : list event) :
  t1 <= t0 ->
  update t0 t1 R w a tr
  = Raise (if normalize_loss_by_steps (cfg a) && bool_decide (t1 = t0)
           then ZeroDivisionError else AttributeError, a, tr).
Proof.
  intros Hle. rewrite update_run. unfold update_losses.
  rewrite reversed_range_nil by exact Hle. cbn [update_loop result_bind snd].
  unfold scale_losses. rewrite bool_decide_eq_true_2 by lia.
  destruct (normalize_loss_by_steps (cfg a)); cbn [andb]; [|reflexivity].
  destruct (decide (t1 = t0)) as [->|Hne].
  - rewrite !bool_decide_eq_true_2 by lia. reflexivity.
  - rewrite !bool_decide_eq_false_2 by lia. reflexivity.
Qed.

(** X6.  When [update] returns, it has made exactly one optimizer step; the
    window was not empty; the agent it leaves differs from the one it was
    called on in the three models and the optimizer only; the local model
    is a copy of the shared model, and the average model is the soft copy of
    the old average model towards it with rate [1 - trust_region_alpha]. *)
Theorem update_changes_the_models_only
    (t0 t1 : Z) (R : npfloat) (w : window Obs) (a a' : agent) (tr tr' : list event) :
  update t0 t1 R w a tr = Ok (tt, a', tr') ->
  t0 < t1 /\
  tr' = tr ++ [OptimizerUpdate] /\
  a' = set_models a (shared_model a') (shared_average_model a') (model a')
         (optimizer a') /\
  model a' = shared_model a' /\
  shared_average_model a'
  = soft_copy_param (shared_average_model a) (shared_model a')
      (NP.sub NP.one (trust_region_alpha (cfg a))).
Proof.
  intros H. rewrite update_run in H.
  destruct (update_losses (cfg a) t0 t1 R w) as [l|e] eqn:El; [|discriminate H].
  injection H as <- <-. split; [|repeat split; reflexivity].
  unfold update_losses in El.
  destruct (update_loop _ _ _ _) as [st|e]; [|discriminate El].
  cbn [result_bind] in El. unfold scale_losses in El.
  destruct (decide (t1 - t0 <= 0)) as [Hle|Hgt]; [|lia].
  rewrite bool_decide_eq_true_2 in El by exact Hle.
  destruct (_ && _); discriminate El.
Qed.


Lemma update_step_missing_key (c : config) (w : window Obs) (i : Z)
    (st : npfloat * losses) :
  is_Some (rho w) -> is_Some (rho_a w) -> is_Some (states w !! i) ->
  ~ complete_step w i ->
  update_step c w i st = Raise (KeyError i).
Proof.
  intros [rh Hrh] [rha Hrha] [s Hs] Hn. destruct st as [Q acc].
  assert (Hd : debug_state c (states w) i = Ok tt).
  { unfold debug_state, getitem. rewrite Hs. by destruct (bool_decide _). }
  unfold update_step. rewrite Hd, Hrh, Hrha. cbn [getitem_opt].
  miss (rewards w) i Hr. miss (values w) i Hv.
  miss (action_log_probs w) i Hlp. miss (action_entropy w) i Hen.
  miss (action_distribs w) i Had. miss rh i Hro. miss rha i Hra.
  miss (action_values w) i Hav. miss (avg_action_distribs w) i Havg.
  miss (actions w) i Hac.
  exfalso. apply Hn. split; [repeat split; eauto|].
  exists rh, rha. repeat split; eauto.
Qed.

(** X7.  A key missing from one of the dicts given to [update] surfaces as
    the [KeyError] of the latest step that lacks it: the loop runs backwards
    from [t_stop - 1], so when the steps after [i] are complete and step [i]
    is not, [update] raises [KeyError i]; no optimizer step is made: the
    agent and the trace are as they were. *)
Theorem update_raises_the_key_it_misses
    (t0 t1 i : Z) (R : npfloat) (w : window Obs) (a : agent) (tr : list event) :
  t0 <= i < t1 ->
  (forall j, i < j < t1 -> complete_step w j) ->
  is_Some (rho w) -> is_Some (rho_a w) -> is_Some (states w !! i) ->
  ~ complete_step w i ->
  update t0 t1 R w a tr = Raise (KeyError i, a, tr).
Proof.
  intros Hi Hlater Hrh Hrha Hs Hn. rewrite update_run. unfold update_losses.
  rewrite (reversed_range_split t0 i t1 Hi), update_loop_app.
  destruct (update_loop_ok (cfg a) w (reversed_range (i + 1) t1) (R, no_losses))
    as [st' ->].
  { intros j Hj. apply elem_of_reversed_range in Hj. apply Hlater. lia. }
  cbn [result_bind update_loop].
  rewrite update_step_missing_key by assumption. reflexivity.
Qed.


End UpdateEdges.

Lemma update_changes_the_models_only_witness :
  let rs := [NP.frac 1 1; NP.frac 1 1] in
  let a := Toy.agent_of Toy.config_09 rs Toy.skewed Toy.uniform 0 (NP.frac 3 2) ([], []) None in
  let w := Toy.window_of rs Toy.skewed Toy.uniform
             (Toy.q_function (NP.frac 3 2) (NP.frac 3 2)) 0 (NP.frac 3 2) in
  exists a',
    update (W := Toy.world) 0 2 NP.zero w a [] = Ok (tt, a', [OptimizerUpdate]) /\
    0 < 2 /\
    [OptimizerUpdate] = [] ++ [OptimizerUpdate] /\
    a' = set_models a (shared_model a') (shared_average_model a') (model a')
           (optimizer a') /\
    model a' = shared_model a' /\
    shared_average_model a'
    = soft_copy_param (shared_average_model a) (shared_model a')
        (NP.sub NP.one (trust_region_alpha (cfg a))).
Proof.
  cbv zeta. eexists. split; [vm_compute; reflexivity|].
  apply (update_changes_the_models_only (W := Toy.world) 0 2 NP.zero
           (Toy.window_of [NP.frac 1 1; NP.frac 1 1] Toy.skewed Toy.uniform
              (Toy.q_function (NP.frac 3 2) (NP.frac 3 2)) 0 (NP.frac 3 2))
           (Toy.agent_of Toy.config_09 [NP.frac 1 1; NP.frac 1 1] Toy.skewed Toy.uniform 0
              (NP.frac 3 2) ([], []) None)).
  vm_compute. reflexivity.
Defined.

Lemma update_raises_the_key_it_misses_witness :
  let rs := [NP.frac 1 1; NP.frac 1 1; NP.frac 1 1] in
  let a := Toy.agent_of Toy.config_09 rs Toy.skewed Toy.uniform 0 (NP.frac 3 2) ([], []) None in
  let w := Toy.without_reward
             (Toy.window_of rs Toy.skewed Toy.uniform
                (Toy.q_function (NP.frac 3 2) (NP.frac 3 2)) 0 (NP.frac 3 2)) 1 in
  update (W := Toy.world) 0 3 NP.zero w a [] = Raise (KeyError 1, a, []).
Proof.
  cbv zeta.
  apply (update_raises_the_key_it_misses (W := Toy.world) 0 3 1).
  - lia.
  - intros j Hj. assert (j = 2) as -> by lia.
    split; [repeat split; vm_compute; eexists; reflexivity|].
    eexists _, _. repeat split; vm_compute; eexists; reflexivity.
  - vm_compute. eexists; reflexivity.
  - vm_compute. eexists; reflexivity.
  - vm_compute. eexists; reflexivity.
  - intros [(_ & _ & [r Hr] & _) _]. vm_compute in Hr. discriminate Hr.
Defined.

(** ** The return targets of the two loops *)

Lemma np_pow_finite (g : Qc) (n : nat) : np_pow (Fin g) n = Fin (g ^ n)%Qc.
Proof.
  unfold np_pow. induction n as [|n IH]; [reflexivity|].
  rewrite Nat.iter_succ, IH. reflexivity.
Qed.

Lemma imap_of_finite (f : nat -> npfloat -> npfloat) (f' : nat -> Qc -> Qc) (l : list Qc) :
  (forall j r, f j (Fin r) = Fin (f' j r)) ->
  imap f (Fin <$> l) = Fin <$> imap f' l.
Proof.
  revert f f'. induction l as [|x l IH]; intros f f' H; [reflexivity|].
  cbn [fmap list_fmap imap]. rewrite H. f_equal. apply IH.
  intros j r. apply H.
Qed.

Lemma weighted_sum_backward (g R : Qc) (l : list Qc) (k : nat) :
  (foldr Qcplus 0 (imap (fun j r => g ^ (k + j) * r) l) + g ^ (k + length l) * R
   = g ^ k * backward_return g R l)%Qc.
Proof.
  revert k. induction l as [|r l IH]; intros k.
  - cbn. rewrite Nat.add_0_r. ring.
  - cbn [imap foldr length backward_return].
    rewrite (imap_ext _ (fun j r => g ^ (S k + j) * r)%Qc l)
      by (intros j x _; cbn [compose]; by rewrite Nat.add_succ_r).
    rewrite Nat.add_0_r, Nat.add_succ_r, <- Qcplus_assoc.
    change (S (k + length l)) with (S k + length l)%nat.
    rewrite IH. cbn [Qcpower]. ring.
Qed.

(** The closed form of the discounted return is the backward recursion. *)
Lemma discounted_return_backward (g R : Qc) (qs : list Qc) (i : nat) :
  discounted_return (Fin g) (Fin <$> qs) (Fin R) i
  = Fin (backward_return g R (drop i qs)).
Proof.
  unfold discounted_return. rewrite <- fmap_drop.
  replace (length (Fin <$> qs) - i)%nat with (length (drop i qs))
    by (rewrite length_drop, length_fmap; reflexivity).
  rewrite (imap_of_finite _ (fun j r => g ^ j * r)%Qc)
    by (intros j r; rewrite np_pow_finite; reflexivity).
  rewrite sum_of_finite, np_pow_finite. cbn [NP.mul NP.add]. f_equal.
  pose proof (weighted_sum_backward g R (drop i qs) 0) as H.
  cbn [Nat.add Qcpower] in H. rewrite H. ring.
Qed.



Section OffPolicyReturns.
Context {O : Type} (w : window O) (g R : Qc) (qs : list Qc) (t0 : Z).
Hypothesis Hrs : forall i r, qs !! i = Some r ->
                             rewards w !! (t0 + Z.of_nat i) = Some (Fin r).

(** The return of a step, on finite rewards: the backward recursion on the
    rewards from that step on. *)
Lemma window_return_backward (i : nat) :
  (i <= length qs)%nat ->
  window_return (Fin g) w (Fin R) (t0 + Z.of_nat (length qs)) (t0 + Z.of_nat i)
  = Fin (backward_return g R (drop i qs)).
Proof.
  intros Hi. remember (length qs - i)%nat as k eqn:Hk.
  revert i Hi Hk. induction k as [|k IH]; intros i Hi Hk.
  - assert (i = length qs) as -> by lia.
    rewrite window_return_stop, drop_all. reflexivity.
  - destruct (lookup_lt_is_Some_2 qs i ltac:(lia)) as [q Hq].
    rewrite (window_return_step _ _ _ _ _ (Fin q)) by (lia || exact (Hrs i q Hq)).
    replace (t0 + Z.of_nat i + 1) with (t0 + Z.of_nat (S i)) by lia.
    rewrite (IH (S i)) by lia. rewrite (drop_S qs q i Hq). reflexivity.
Qed.

End OffPolicyReturns.



Section OnPolicyReturns.
Context `{W : World}.

Lemma on_policy_step_recorded (a : agent) (i : Z) (R r : npfloat) (acc : losses) :
  recorded a i -> past_rewards a !! i = Some r ->
  exists acc',
    on_policy_step a i (R, acc) = Ok (NP.add (NP.mul R (gamma (cfg a))) r, acc') /\
    term_Q_ret <$> terms acc'
    = (term_Q_ret <$> terms acc) ++ [NP.add (NP.mul R (gamma (cfg a))) r].
Proof.
  intros ([lp Hlp] & [en Hen] & [s Hs] & [v Hv] & [ad Had] & [avg Havg]) Hr.
  unfold on_policy_step, debug_state.
  rewrite (getitem_Some _ _ _ Hr), (getitem_Some _ _ _ Hv), (getitem_Some _ _ _ Hs),
    (getitem_Some _ _ _ Hlp), (getitem_Some _ _ _ Hen), (getitem_Some _ _ _ Had),
    (getitem_Some _ _ _ Havg).
  destruct (bool_decide (process_idx (cfg a) = Some 0)); cbn [result_bind];
    (eexists; split; [reflexivity|apply Q_ret_sequence_accumulate]).
Qed.

Lemma on_policy_loop_backward (a : agent) (g R : Qc) (qs : list Qc) (m : nat)
    (Q : npfloat) (acc : losses) :
  gamma (cfg a) = Fin g ->
  (forall i r, qs !! i = Some r ->
     past_rewards a !! (t_start a + Z.of_nat i) = Some (Fin r)) ->
  (forall i, (i < length qs)%nat -> recorded a (t_start a + Z.of_nat i)) ->
  (m <= length qs)%nat ->
  Q = Fin (backward_return g R (drop m qs)) ->
  exists st,
    on_policy_loop a (reversed_range (t_start a) (t_start a + Z.of_nat m)) (Q, acc)
    = Ok st /\
    term_Q_ret <$> terms st.2
    = (term_Q_ret <$> terms acc)
        ++ (discounted_return (Fin g) (Fin <$> qs) (Fin R) <$> rev (seq 0 m)).
Proof.
  intros Hgamma Hrs Hrec. revert Q acc. induction m as [|m IH]; intros Q acc Hm HQ0.
  - rewrite reversed_range_nil by lia. exists (Q, acc).
    split; [reflexivity|]. cbn. by rewrite app_nil_r.
  - rewrite reversed_range_cons by lia.
    replace (t_start a + Z.of_nat (S m) - 1) with (t_start a + Z.of_nat m) by lia.
    cbn [on_policy_loop].
    destruct (lookup_lt_is_Some_2 qs m ltac:(lia)) as [q Hq].
    destruct (on_policy_step_recorded a (t_start a + Z.of_nat m) Q (Fin q) acc
                (Hrec m ltac:(lia)) (Hrs m q Hq)) as (acc' & E & T).
    assert (Hstep : NP.add (NP.mul Q (gamma (cfg a))) (Fin q)
                    = Fin (backward_return g R (drop m qs))).
    { rewrite Hgamma, HQ0, (drop_S qs q m Hq). cbn [NP.mul NP.add backward_return].
      f_equal. ring. }
    rewrite Hstep in E, T. rewrite E. cbn [result_bind].
    destruct (IH _ acc' ltac:(lia) eq_refl) as (st & Est & Tst).
    exists st. split; [exact Est|]. rewrite Tst, T, <- app_assoc.
    rewrite (rev_seq_S m). cbn [fmap list_fmap app].
    rewrite discounted_return_backward. reflexivity.
Qed.

(** X9.  The return targets of [update_on_policy] are the discounted
    returns of the window, for every window length, finite rewards, finite
    discount and finite bootstrap value: the loop [R *= gamma; R += r]
    needs nothing of the values or the policy. *)
Theorem on_policy_targets_are_discounted_returns
    (a : agent) (g R : Qc) (qs : list Qc) :
  gamma (cfg a) = Fin g ->
  qs <> [] ->
  t a = t_start a + Z.of_nat (length qs) ->
  (forall i r, qs !! i = Some r ->
     past_rewards a !! (t_start a + Z.of_nat i) = Some (Fin r)) ->
  (forall i, (i < length qs)%nat -> recorded a (t_start a + Z.of_nat i)) ->
  exists l,
    on_policy_losses a (Fin R) = Ok l /\
    Q_ret_sequence l
    = discounted_return (Fin g) (Fin <$> qs) (Fin R) <$> rev (seq 0 (length qs)).
Proof.
  intros Hgamma Hne Ht Hrs Hrec. unfold on_policy_losses. rewrite Ht.
  destruct (on_policy_loop_backward a g R qs (length qs) (Fin R) no_losses
              Hgamma Hrs Hrec (le_n _)) as (st & E & T).
  { by rewrite drop_all. }
  rewrite E. cbn [result_bind].
  destruct (scale_losses_ok (cfg a) (t_start a + Z.of_nat (length qs) - t_start a) st.2)
    as [l El].
  { destruct qs; [done|cbn [length]; lia]. }
  exists l. split; [exact El|]. unfold Q_ret_sequence.
  rewrite (terms_scale_losses _ _ _ _ El), T. reflexivity.
Qed.

End OnPolicyReturns.

Lemma on_policy_targets_are_discounted_returns_witness :
  exists l,
    on_policy_losses (W := Toy.world)
      (Toy.agent_of Toy.config_09 [NP.frac 1 1; NP.frac 0 1; NP.frac 2 1]
         Toy.uniform Toy.skewed 0 (NP.frac 5 1) ([], []) None) (Fin (Qc_of 3 1)) = Ok l /\
    Q_ret_sequence l
    = discounted_return (Fin (Qc_of 9 10)) (Fin <$> [Qc_of 1 1; Qc_of 0 1; Qc_of 2 1])
        (Fin (Qc_of 3 1)) <$> rev (seq 0 3).
Proof.
  apply (on_policy_targets_are_discounted_returns (W := Toy.world)
           (Toy.agent_of Toy.config_09 [NP.frac 1 1; NP.frac 0 1; NP.frac 2 1]
              Toy.uniform Toy.skewed 0 (NP.frac 5 1) ([], []) None)
           (Qc_of 9 10) (Qc_of 3 1) [Qc_of 1 1; Qc_of 0 1; Qc_of 2 1]).
  - reflexivity.
  - discriminate.
  - reflexivity.
  - intros [|[|[|i]]] r H; cbn in H; try discriminate H;
      injection H as <-; vm_compute; reflexivity.
  - intros [|[|[|i]]] Hi; cbn in Hi; try lia;
      repeat split; vm_compute; eexists; reflexivity.
Defined.

(** ** update_from_replay: what it samples, what it changes, how it fails *)

Section Replay.
Context `{W : World}.

Lemma same_but_models_refl (a : agent) : same_but_models a a.
Proof. unfold same_but_models. by destruct a. Qed.

Lemma same_but_models_trans (a b c : agent) :
  same_but_models a b -> same_but_models b c -> same_but_models a c.
Proof. unfold same_but_models. intros -> ->. reflexivity. Qed.

Lemma update_from_replay_run (a : agent) (tr : list event) :
  update_from_replay a tr =
  if bool_decide (rb_len (replay_buffer a) = 0) then Ok (tt, a, tr)
  else
    let tr1 := tr ++ [SampleEpisodes 1 (t_max (cfg a) + 1)] in
    match rb_sample_episodes (replay_buffer a) 1 (t_max (cfg a) + 1) with
    | [] => Raise (IndexError, a, tr1)
    | episode :: _ =>
        match replay_window a 0 episode empty_window with
        | Raise e => Raise (e, a, tr1)
        | Ok w =>
            match last episode with
            | None => Raise (IndexError, a, tr1)
            | Some last_transition =>
                update 0 (Z.of_nat (length episode))
                  (replay_bootstrap a last_transition) w a tr1
            end
        end
    end.
Proof.
  unfold update_from_replay. run_method.
  destruct (bool_decide (rb_len (replay_buffer a) = 0)); [reflexivity|].
  destruct (rb_sample_episodes _ _ _) as [|episode ?]; [reflexivity|].
  destruct (replay_window a 0 episode empty_window) as [w|e]; [|reflexivity].
  destruct (last episode); reflexivity.
Qed.

Lemma update_from_replay_frame (a a' : agent) (tr tr' : list event) :
  update_from_replay a tr = Ok (tt, a', tr') ->
  same_but_models a a' /\ tr' = tr ++ replay_events a /\
  (synced a -> synced a').
Proof.
  rewrite update_from_replay_run. unfold replay_events.
  destruct (bool_decide (rb_len (replay_buffer a) = 0)).
  { intros [= <- <-]. rewrite app_nil_r. auto using same_but_models_refl. }
  destruct (rb_sample_episodes _ _ _) as [|episode ?]; [discriminate|].
  destruct (replay_window a 0 episode empty_window) as [w|e]; [|discriminate].
  destruct (last episode) as [lt|]; [|discriminate].
  rewrite update_run. destruct (update_losses _ _ _ _ _) as [ls|e]; [|discriminate].
  intros [= <- <-]. rewrite <- app_assoc. repeat split.
Qed.

(** X10.  Whatever the buffer returns, a call of [update_from_replay] that
    returns has changed nothing but the models and the optimizer: the
    trajectory window, the counters [t] and [t_start], the pending last
    state and action, the replay buffer and the statistics are untouched.
    With an empty buffer it did nothing at all; otherwise it sampled one
    episode of at most [t_max + 1] steps and made one optimizer step, after
    which the local model is a copy of the shared one. *)
Theorem update_from_replay_changes_the_models_only
    (a a' : agent) (tr tr' : list event) :
  update_from_replay a tr = Ok (tt, a', tr') ->
  same_but_models a a' /\
  (rb_len (replay_buffer a) = 0 -> a' = a /\ tr' = tr) /\
  (rb_len (replay_buffer a) <> 0 ->
   tr' = tr ++ [SampleEpisodes 1 (t_max (cfg a) + 1); OptimizerUpdate] /\
   synced a').
Proof.
  intros H. destruct (update_from_replay_frame a a' tr tr' H) as (Hf & Htr & _).
  split; [exact Hf|]. rewrite update_from_replay_run in H. split; intros Hlen.
  - rewrite bool_decide_eq_true_2 in H by exact Hlen. by injection H as <- <-.
  - unfold replay_events in Htr.
    rewrite bool_decide_eq_false_2 in Htr, H by exact Hlen. split; [exact Htr|].
    destruct (rb_sample_episodes _ _ _) as [|episode ?]; [discriminate|].
    destruct (replay_window a 0 episode empty_window) as [w|e]; [|discriminate].
    destruct (last episode) as [lt|]; [|discriminate].
    rewrite update_run in H.
    destruct (update_losses _ _ _ _ _) as [ls|e]; [|discriminate].
    injection H as <- _. reflexivity.
Qed.

Lemma replay_window_without_mu (a : agent) (episode : list (transition Obs)) (t : Z)
    (w : window Obs) :
  Exists (fun tr => tr_mu tr = None) episode ->
  replay_window a t episode w = Raise AttributeError.
Proof.
  intros H. revert t w. induction episode as [|tr episode IH]; intros t w.
  - by apply Exists_nil in H.
  - cbn [replay_window]. unfold replay_step.
    destruct (tr_mu tr) as [mu|] eqn:Emu; [|reflexivity].
    cbn [result_bind]. apply IH.
    apply Exists_cons in H as [H|H]; [congruence|exact H].
Qed.

(** X11.  With a buffer that is not empty, [update_from_replay] raises
    before any training when the sample is unusable: [IndexError] when
    [sample_episodes] returns no episode ([...[0]]) or an empty first
    episode ([episode[-1]]), and [AttributeError] when a transition of the
    episode was stored without its behaviour distribution ([mu.prob] on
    [None]).  When it raises, the episode has been sampled, no optimizer
    step has been made and the agent is as it was. *)
Theorem update_from_replay_unusable_sample (a : agent) (tr : list event) :
  let sample := rb_sample_episodes (replay_buffer a) 1 (t_max (cfg a) + 1) in
  let tr1 := tr ++ [SampleEpisodes 1 (t_max (cfg a) + 1)] in
  rb_len (replay_buffer a) <> 0 ->
  (head sample = None \/ head sample = Some [] ->
   update_from_replay a tr = Raise (IndexError, a, tr1)) /\
  (forall episode,
     head sample = Some episode -> Exists (fun t => tr_mu t = None) episode ->
     update_from_replay a tr = Raise (AttributeError, a, tr1)).
Proof.
  intros sample tr1 Hlen. rewrite update_from_replay_run.
  rewrite bool_decide_eq_false_2 by exact Hlen. cbv zeta. fold sample tr1.
  split.
  - intros [H|H]; destruct sample as [|episode rest]; try discriminate H;
      [reflexivity|]. injection H as ->. reflexivity.
  - intros episode H Hmu. destruct sample as [|ep rest]; [discriminate H|].
    injection H as ->. rewrite replay_window_without_mu by exact Hmu. reflexivity.
Qed.

Lemma vdiv_self_one (ps : vec) :
  Forall (fun p => exists q, p = Fin q /\ q <> 0%Qc) ps ->
  Forall (fun r => r = NP.one) (NP.vdiv ps ps).
Proof.
  intros H. induction ps as [|p ps IH]; [constructor|].
  apply Forall_cons in H as [(q & -> & Hq) H].
  cbn. constructor; [|exact (IH H)].
  unfold NP.div. destruct (decide (q = 0%Qc)); [done|].
  unfold NP.one. f_equal. by field.
Qed.

Lemma no_warning_self (ps : vec) :
  Forall (fun p => exists q, p = Fin q /\ q <> 0%Qc) ps ->
  concat (zip_with NP.div_warning ps ps) = [].
Proof.
  intros H. induction ps as [|p ps IH]; [reflexivity|].
  apply Forall_cons in H as [(q & -> & Hq) H].
  cbn. destruct (decide (q = 0%Qc)); [done|]. exact (IH H).
Qed.

(** X12.  A transition replayed under the policy that produced it has
    importance ratios 1: when the stored [mu] is the distribution the local
    model gives for the stored state, and its probabilities are finite and
    not zero, the step written by the replay loop has [rho = 1] and
    [rho_a = 1] for every action, every dict has the key, and neither
    division reports a warning. *)
Theorem replay_under_the_same_policy
    (a : agent) (t : Z) (tr : transition Obs) (w : window Obs) :
  let mu := (forward (model a) (phi (tr_state tr))).1 in
  tr_mu tr = Some mu ->
  (exists q, prob mu (tr_action tr) = Fin q /\ q <> 0%Qc) ->
  Forall (fun p => exists q, p = Fin q /\ q <> 0%Qc) (all_prob mu) ->
  is_Some (rho w) -> is_Some (rho_a w) ->
  exists w',
    replay_step a t tr w = Ok w' /\ covers w' t /\ ratio_one w' t /\
    (importance_ratio mu mu (tr_action tr)).2 = [] /\
    (importance_ratio_all mu mu).2 = [].
Proof.
  intros mu Hmu (q & Hq & Hq0) Hall [rh Hrh] [rha Hrha].
  unfold replay_step. rewrite Hmu. eexists. split; [reflexivity|].
  split; [|split; [|split]].
  - repeat split; cbn; rewrite lookup_insert_eq; by eexists.
  - exists (<[t := (importance_ratio mu mu (tr_action tr)).1]> rh),
      (<[t := (importance_ratio_all mu mu).1]> rha), (importance_ratio_all mu mu).1.
    cbn [rho rho_a]. rewrite Hrh, Hrha. cbn [fmap option_fmap option_map].
    repeat split; rewrite ?lookup_insert_eq; try reflexivity.
    + unfold importance_ratio, NP.divide. cbn [fst]. rewrite Hq.
      unfold NP.div. destruct (decide (q = 0%Qc)); [done|].
      unfold NP.one. do 2 f_equal. by field.
    + apply vdiv_self_one, Hall.
  - unfold importance_ratio, NP.divide. cbn [snd]. rewrite Hq.
    unfold NP.div_warning. by destruct (decide (q = 0%Qc)).
  - unfold importance_ratio_all. cbn [snd]. apply no_warning_self, Hall.
Qed.

End Replay.

Lemma update_from_replay_changes_the_models_only_witness :
  let a := Toy.agent_of Toy.config_09 [NP.frac 1 1; NP.frac 1 1] Toy.uniform Toy.skewed 0
             NP.one ([], [[Toy.stored Toy.uniform 0 false]]) (Some 5) in
  exists a' tr',
    update_from_replay (W := Toy.world) a [] = Ok (tt, a', tr') /\
    same_but_models a a' /\
    (rb_len (replay_buffer a) = 0 -> a' = a /\ tr' = []) /\
    (rb_len (replay_buffer a) <> 0 ->
     tr' = [] ++ [SampleEpisodes 1 (t_max (cfg a) + 1); OptimizerUpdate] /\
     synced a').
Proof.
  cbv zeta. eexists _, _. split; [vm_compute; reflexivity|].
  apply (update_from_replay_changes_the_models_only (W := Toy.world)
           (Toy.agent_of Toy.config_09 [NP.frac 1 1; NP.frac 1 1] Toy.uniform Toy.skewed 0
              NP.one ([], [[Toy.stored Toy.uniform 0 false]]) (Some 5))).
  vm_compute. reflexivity.
Defined.

Lemma update_from_replay_unusable_sample_witness :
  let a := Toy.agent_of Toy.config_09 [NP.frac 1 1] Toy.uniform Toy.skewed 0
             NP.one ([], [[]; [Toy.stored Toy.uniform 0 false]]) None in
  let b := Toy.agent_of Toy.config_09 [NP.frac 1 1] Toy.uniform Toy.skewed 0
             NP.one ([], [[Toy.stored Toy.uniform 0 false; Toy.forgotten]]) None in
  update_from_replay (W := Toy.world) a []
  = Raise (IndexError, a, [] ++ [SampleEpisodes 1 (t_max (cfg a) + 1)]) /\
  update_from_replay (W := Toy.world) b []
  = Raise (AttributeError, b, [] ++ [SampleEpisodes 1 (t_max (cfg b) + 1)]).
Proof.
  cbv zeta. split.
  - apply (proj1 (update_from_replay_unusable_sample (W := Toy.world)
                    (Toy.agent_of Toy.config_09 [NP.frac 1 1] Toy.uniform Toy.skewed 0
                       NP.one ([], [[]; [Toy.stored Toy.uniform 0 false]]) None) []
                    ltac:(vm_compute; discriminate))).
    right. reflexivity.
  - apply (proj2 (update_from_replay_unusable_sample (W := Toy.world)
                    (Toy.agent_of Toy.config_09 [NP.frac 1 1] Toy.uniform Toy.skewed 0
                       NP.one ([], [[Toy.stored Toy.uniform 0 false; Toy.forgotten]])
                       None) []
                    ltac:(vm_compute; discriminate))
             [Toy.stored Toy.uniform 0 false; Toy.forgotten]).
    + reflexivity.
    + apply Exists_cons_tl, Exists_cons_hd. reflexivity.
Defined.

Lemma replay_under_the_same_policy_witness :
  let a := Toy.agent_of Toy.config_09 [NP.frac 1 1] Toy.uniform Toy.skewed 0
             NP.one ([], []) None in
  exists w',
    replay_step (W := Toy.world) a 0 (Toy.stored Toy.uniform 0 false) empty_window
    = Ok w' /\
    covers w' 0 /\ ratio_one w' 0 /\
    (importance_ratio Toy.uniform Toy.uniform 0).2 = [] /\
    (importance_ratio_all Toy.uniform Toy.uniform).2 = [].
Proof.
  cbv zeta.
  apply (replay_under_the_same_policy (W := Toy.world)
           (Toy.agent_of Toy.config_09 [NP.frac 1 1] Toy.uniform Toy.skewed 0
              NP.one ([], []) None) 0 (Toy.stored Toy.uniform 0 false) empty_window).
  - reflexivity.
  - exists (Qc_of 1 2). split; [reflexivity|].
    intros H. apply (f_equal this) in H. vm_compute in H. discriminate H.
  - repeat constructor; (exists (Qc_of 1 2); split; [reflexivity|]);
      intros H; apply (f_equal this) in H; vm_compute in H; discriminate H.
  - by eexists.
  - by eexists.
Defined.

(** ** The training interface: update_on_policy, act_and_train,
    stop_episode_and_train *)

Section Interface.
Context `{W : World}.

(** X13.  [update_on_policy] called on a window without a step fails its
    assertion; called before the reward of the last step is written, it
    raises the [KeyError] of that step, [t - 1], at the first iteration of
    its loop.  In both cases nothing is trained and the window is kept: the
    agent and the trace are as they were. *)
Theorem update_on_policy_needs_a_rewarded_window
    (sv : option Obs) (a : agent) (tr : list event) :
  (t a <= t_start a -> update_on_policy sv a tr = Raise (AssertionError, a, tr)) /\
  (t_start a < t a -> past_rewards a !! (t a - 1) = None ->
   update_on_policy sv a tr = Raise (KeyError (t a - 1), a, tr)).
Proof.
  rewrite update_on_policy_run. split.
  - intros Hle. rewrite bool_decide_eq_false_2 by lia. reflexivity.
  - intros Hlt Hr. rewrite bool_decide_eq_true_2 by exact Hlt.
    unfold on_policy_losses. rewrite reversed_range_cons by exact Hlt.
    cbn [on_policy_loop]. unfold on_policy_step at 1, getitem at 1.
    rewrite Hr. reflexivity.
Qed.

Lemma times_S (n : nat) (body : M unit) (a : agent) (tr : list event) :
  times (S n) body a tr
  = match body a tr with
    | Ok (_, a1, tr1) => times n body a1 tr1
    | Raise e => Raise e
    end.
Proof. reflexivity. Qed.

Lemma replay_loop_inv (n : nat) (a a' : agent) (tr tr' : list event) :
  times n (emit CallUpdateFromReplay ;;; update_from_replay) a tr = Ok (tt, a', tr') ->
  same_but_models a a' /\ (synced a -> synced a').
Proof.
  revert a tr. induction n as [|n IH]; intros a tr H.
  - injection H as <- <-. auto using same_but_models_refl.
  - rewrite times_S in H.
    change ((emit CallUpdateFromReplay ;;; update_from_replay) a tr)
      with (update_from_replay a (tr ++ [CallUpdateFromReplay])) in H.
    destruct (update_from_replay a (tr ++ [CallUpdateFromReplay]))
      as [[[[] a1] tr1]|e] eqn:E; [|discriminate H].
    apply update_from_replay_frame in E as (Hf1 & _ & Hs1).
    apply IH in H as (Hf2 & Hs2).
    split; [exact (same_but_models_trans _ _ _ Hf1 Hf2)|auto].
Qed.

Lemma scheduled_updates_run (sv : option Obs) (a : agent) (tr : list event) :
  scheduled_updates sv a tr
  = match update_on_policy sv a (tr ++ [CallUpdateOnPolicy]) with
    | Ok (_, a1, tr1) =>
        times (Z.to_nat (n_times_replay (cfg a)))
          (emit CallUpdateFromReplay ;;; update_from_replay) a1 tr1
    | Raise e => Raise e
    end.
Proof. reflexivity. Qed.

Lemma scheduled_updates_inv (sv : option Obs) (a a' : agent) (tr tr' : list event) :
  scheduled_updates sv a tr = Ok (tt, a', tr') ->
  t_start a < t a /\ synced a' /\
  exists s v m o, a' = set_models (clear_window a) s v m o.
Proof.
  rewrite scheduled_updates_run, update_on_policy_run.
  case_bool_decide as Hlt; [|discriminate].
  destruct (on_policy_losses a (on_policy_bootstrap a sv)) as [l|e]; [|discriminate].
  intros H. apply replay_loop_inv in H as (Hf & Hs).
  split; [exact Hlt|]. split; [apply Hs; reflexivity|].
  eexists _, _, _, _. exact Hf.
Qed.

Lemma observe_and_store_inv (state : Obs) (reward : npfloat) (drawn x : action)
    (a a' : agent) (tr tr' : list event) :
  observe_and_store state reward drawn a tr = Ok (x, a', tr') ->
  x = drawn /\ tr' = tr /\
  exists rb,
    a' = set_last
           (record_step a (phi state) drawn (forward (model a) (phi state)).1
              (state_value (forward (model a) (phi state)))
              (forward (shared_average_model a) (phi state)).1)
           rb (Some state) (Some drawn) (Some (forward (model a) (phi state)).1) /\
    match last_state a with
    | None => rb = replay_buffer a
    | Some ls =>
        exists la mu,
          last_action a = Some la /\ last_action_distrib a = Some mu /\
          rb = rb_append (replay_buffer a)
                 {| tr_state := ls; tr_action := la; tr_reward := reward;
                    tr_next_state := state; tr_next_action := drawn;
                    tr_is_state_terminal := false; tr_mu := Some mu |}
    end.
Proof.
  unfold observe_and_store, bind, get, put, ret, raise.
  cbn [last_state last_action last_action_distrib record_step replay_buffer].
  destruct (last_state a) as [ls|].
  - destruct (last_action a) as [la|]; [|discriminate].
    destruct (last_action_distrib a) as [mu|]; [|discriminate].
    intros [= <- <- <-]. repeat split. eexists. split; [reflexivity|].
    by eexists _, _.
  - intros [= <- <- <-]. repeat split. by eexists.
Qed.

Lemma act_and_train_inv (state : Obs) (reward : npfloat) (drawn x : action)
    (a a' : agent) (tr tr' : list event) :
  act_and_train state reward drawn a tr = Ok (x, a', tr') ->
  let a0 := set_past_rewards a (<[t a - 1 := reward]> (past_rewards a)) in
  exists a1 tr1,
    observe_and_store state reward drawn a1 tr1 = Ok (x, a', tr') /\
    if bool_decide (t a - t_start a = t_max (cfg a))
    then t_start a < t a /\ synced a1 /\
         exists s v m o, a1 = set_models (clear_window a0) s v m o
    else a1 = a0.
Proof.
  rewrite act_and_train_run. cbv zeta. intros H.
  destruct (bool_decide (t a - t_start a = t_max (cfg a))).
  - destruct (scheduled_updates _ _ _) as [[[[] a1] tr1]|e] eqn:E; [|discriminate H].
    exists a1, tr1. split; [exact H|].
    exact (scheduled_updates_inv _ _ _ _ _ E).
  - by eexists _, _.
Qed.

(** X14.  A call of [act_and_train] that returns gives back the action
    drawn, advances [t] by one, and has written step [t] of the window with
    what the models say of the new state, the models being those left by
    the update when one ran; the window starts at [t] after an update and
    where it started otherwise; the state, the action and its distribution
    are kept for the next call; and the reward received is at key [t - 1]
    unless the update has consumed the window. *)
Theorem act_and_train_records_the_step
    (state : Obs) (reward : npfloat) (drawn x : action)
    (a a' : agent) (tr tr' : list event) :
  act_and_train state reward drawn a tr = Ok (x, a', tr') ->
  let out := forward (model a') (phi state) in
  x = drawn /\ t a' = t a + 1 /\
  t_start a'
  = (if bool_decide (t a - t_start a = t_max (cfg a)) then t a else t_start a) /\
  past_states a' !! t a = Some (phi state) /\
  past_values a' !! t a = Some (state_value out) /\
  past_action_distrib a' !! t a = Some out.1 /\
  past_action_log_prob a' !! t a = Some (log_prob out.1 drawn) /\
  past_action_entropy a' !! t a = Some (entropy out.1) /\
  past_avg_action_distrib a' !! t a
  = Some (forward (shared_average_model a') (phi state)).1 /\
  last_state a' = Some state /\ last_action a' = Some drawn /\
  last_action_distrib a' = Some out.1 /\
  (t a - t_start a <> t_max (cfg a) -> past_rewards a' !! (t a - 1) = Some reward).
Proof.
  intros H out. subst out.
  apply act_and_train_inv in H as (a1 & tr1 & H & Hcase). cbv zeta in Hcase.
  apply observe_and_store_inv in H as (-> & _ & rb & -> & _).
  case_bool_decide as Htrig.
  - destruct Hcase as (_ & _ & s & v & m & o & ->). cbn.
    rewrite !lookup_insert_eq. repeat split. done.
  - subst a1. cbn. rewrite !lookup_insert_eq. repeat split.
Qed.

(** X15.  The transition [act_and_train] appends to the replay buffer is
    the one that led to the new state: the state, the action and the
    behaviour distribution kept by the previous call, the reward and the
    state given to this call, the action drawn, not terminal.  On the first
    call of an episode nothing is appended.  The updates in between leave
    the buffer as it was. *)
Theorem act_and_train_stores_the_transition
    (state : Obs) (reward : npfloat) (drawn x : action)
    (a a' : agent) (tr tr' : list event) :
  act_and_train state reward drawn a tr = Ok (x, a', tr') ->
  match last_state a with
  | None => replay_buffer a' = replay_buffer a
  | Some ls =>
      exists la mu,
        last_action a = Some la /\ last_action_distrib a = Some mu /\
        replay_buffer a'
        = rb_append (replay_buffer a)
            {| tr_state := ls; tr_action := la; tr_reward := reward;
               tr_next_state := state; tr_next_action := drawn;
               tr_is_state_terminal := false; tr_mu := Some mu |}
  end.
Proof.
  intros H.
  apply act_and_train_inv in H as (a1 & tr1 & H & Hcase). cbv zeta in Hcase.
  apply observe_and_store_inv in H as (_ & _ & rb & -> & Hrb).
  assert (Hsame : last_state a1 = last_state a /\ last_action a1 = last_action a /\
                  last_action_distrib a1 = last_action_distrib a /\
                  replay_buffer a1 = replay_buffer a).
  { destruct (bool_decide _).
    - destruct Hcase as (_ & _ & s & v & m & o & ->). repeat split.
    - subst a1. repeat split. }
  destruct Hsame as (E1 & E2 & E3 & E4). rewrite E1, E2, E3, E4 in Hrb.
  cbn [replay_buffer set_last]. exact Hrb.
Qed.

Lemma act_and_train_in_step (state : Obs) (reward : npfloat) (drawn x : action)
    (a a' : agent) (tr tr' : list event) :
  in_step a ->
  act_and_train state reward drawn a tr = Ok (x, a', tr') ->
  in_step a' /\ t a' = t a + 1 /\ cfg a' = cfg a.
Proof.
  intros ((Hle & Hrec & Hrew & Hlast) & Hmax & Hsync) H.
  apply act_and_train_inv in H as (a1 & tr1 & H & Hcase). cbv zeta in Hcase.
  apply observe_and_store_inv in H as (_ & _ & rb & -> & _).
  case_bool_decide as Htrig.
  - destruct Hcase as (Hlt & Hs1 & s & v & m & o & ->).
    split; [|split; reflexivity]. split; [|split].
    + apply window_ok_record; [cbn; lia|]. intros i Hi. cbn in Hi. lia.
    + cbn. lia.
    + exact Hs1.
  - subst a1. split; [|split; reflexivity]. split; [|split].
    + apply window_ok_record; [exact Hle|]. intros i Hi. cbn in Hi.
      split; [exact (Hrec i Hi)|]. cbn. rewrite lookup_insert_is_Some'.
      destruct (decide (t a - 1 = i)); [by left|right; apply Hrew; lia].
    + cbn. lia.
    + exact Hsync.
Qed.

Lemma stop_episode_and_train_inv (state : Obs) (reward : npfloat) (done : bool)
    (a a' : agent) (tr tr' : list event) :
  stop_episode_and_train state reward done a tr = Ok (tt, a', tr') ->
  exists ls la s v m o,
    last_state a = Some ls /\ last_action a = Some la /\
    t_start a < t a /\ m = s /\
    a' = set_last
           (set_models
              (clear_window
                 (set_past_rewards a (<[t a - 1 := reward]> (past_rewards a))))
              s v m o)
           (rb_stop_current_episode
              (rb_append (replay_buffer a)
                 {| tr_state := ls; tr_action := la; tr_reward := reward;
                    tr_next_state := state; tr_next_action := la;
                    tr_is_state_terminal := done;
                    tr_mu := last_action_distrib a |}))
           None None None.
Proof.
  unfold stop_episode_and_train, bind, get, put.
  destruct (last_state a) as [ls|]; [|discriminate].
  destruct (last_action a) as [la|]; [|discriminate].
  set (a0 := set_past_rewards a (<[t a - 1 := reward]> (past_rewards a))).
  intros H.
  assert (Hs : exists sv a1 tr1,
             scheduled_updates sv a0 tr = Ok (tt, a1, tr1) /\
             a' = set_last a1
                    (rb_stop_current_episode
                       (rb_append (replay_buffer a1)
                          {| tr_state := ls; tr_action := la; tr_reward := reward;
                             tr_next_state := state; tr_next_action := la;
                             tr_is_state_terminal := done;
                             tr_mu := last_action_distrib a1 |}))
                    None None None).
  { destruct done.
    - destruct (scheduled_updates None a0 tr) as [[[[] a1] tr1]|e] eqn:E;
        [|discriminate H].
      injection H as <- <-. by eexists _, _, _.
    - destruct (scheduled_updates (Some (phi state)) a0 tr) as [[[[] a1] tr1]|e] eqn:E;
        [|discriminate H].
      injection H as <- <-. by eexists _, _, _. }
  destruct Hs as (sv & a1 & tr1 & E & ->).
  apply scheduled_updates_inv in E as (Hlt & Hsync & s & v & m & o & ->).
  exists ls, la, s, v, m, o. repeat split; [exact Hlt|exact Hsync].
Qed.

(** X16.  A call of [stop_episode_and_train] that returns has closed the
    episode: the last transition, with the reward and the [done] flag given
    to the call and the behaviour distribution kept by the last
    [act_and_train], is appended to the buffer and the episode is stopped
    there; the window is empty and starts at [t]; the state, the action and
    the distribution kept for the next call are cleared.  A second call,
    with no [act_and_train] in between, fails its first assertion and
    changes nothing. *)
Theorem stop_episode_and_train_closes_the_episode
    (state : Obs) (reward : npfloat) (done : bool)
    (a a' : agent) (tr tr' : list event) :
  stop_episode_and_train state reward done a tr = Ok (tt, a', tr') ->
  (exists ls la,
     last_state a = Some ls /\ last_action a = Some la /\
     replay_buffer a'
     = rb_stop_current_episode
         (rb_append (replay_buffer a)
            {| tr_state := ls; tr_action := la; tr_reward := reward;
               tr_next_state := state; tr_next_action := la;
               tr_is_state_terminal := done; tr_mu := last_action_distrib a |})) /\
  t a' = t a /\ t_start a' = t a /\
  past_rewards a' = ∅ /\ past_states a' = ∅ /\ past_values a' = ∅ /\
  past_action_log_prob a' = ∅ /\ past_action_entropy a' = ∅ /\
  past_action_distrib a' = ∅ /\ past_avg_action_distrib a' = ∅ /\
  last_state a' = None /\ last_action a' = None /\ last_action_distrib a' = None /\
  forall state2 reward2 done2 tr2,
    stop_episode_and_train state2 reward2 done2 a' tr2
    = Raise (AssertionError, a', tr2).
Proof.
  intros H.
  apply stop_episode_and_train_inv in H
    as (ls & la & s & v & m & o & Hls & Hla & _ & _ & ->).
  split; [by exists ls, la|]. repeat split.
Qed.

Lemma stop_episode_and_train_in_step (state : Obs) (reward : npfloat) (done : bool)
    (a a' : agent) (tr tr' : list event) :
  in_step a ->
  stop_episode_and_train state reward done a tr = Ok (tt, a', tr') ->
  in_step a' /\ t a' = t a /\ cfg a' = cfg a.
Proof.
  intros (_ & Hmax & _) H.
  apply stop_episode_and_train_inv in H
    as (ls & la & s & v & m & o & _ & _ & Hlt & -> & ->).
  split; [|split; reflexivity]. split; [|split].
  - unfold window_ok. cbn. split; [lia|]. split; [intros; lia|].
    split; [intros; lia|]. intros [? ?]. done.
  - cbn. lia.
  - reflexivity.
Qed.

Lemma run_in_step (cs : list call) (a a' : agent) (tr tr' : list event) :
  in_step a ->
  run cs a tr = Ok (tt, a', tr') ->
  in_step a' /\ t a' = t a + Z.of_nat (length (filter (fun c => is_act c = true) cs)) /\
  cfg a' = cfg a.
Proof.
  revert a tr. induction cs as [|c cs IH]; intros a tr Hin H.
  - injection H as <- <-. cbn. split; [exact Hin|]. split; [lia|reflexivity].
  - cbn [run] in H. unfold bind at 1 in H.
    destruct (do_call c a tr) as [[[[] a1] tr1]|e] eqn:E; [|discriminate H].
    assert (H1 : in_step a1 /\ t a1 = t a + (if is_act c then 1 else 0) /\
                 cfg a1 = cfg a).
    { destruct c as [state reward drawn|state reward done]; cbn [do_call is_act] in E |- *.
      - unfold bind, ret in E.
        destruct (act_and_train state reward drawn a tr) as [[[x a2] tr2]|e] eqn:E2;
          [|discriminate E].
        injection E as <- <-. exact (act_and_train_in_step _ _ _ _ _ _ _ _ Hin E2).
      - destruct (stop_episode_and_train_in_step _ _ _ _ _ _ _ Hin E) as (? & ? & ?).
        split; [assumption|split; [lia|assumption]]. }
    destruct H1 as (Hin1 & Ht1 & Hc1).
    destruct (IH a1 tr1 Hin1 H) as (Hin' & Ht' & Hc').
    split; [exact Hin'|]. split; [|congruence].
    rewrite Ht', Ht1, filter_cons. destruct (is_act c).
    + rewrite decide_True by reflexivity. cbn [length]. lia.
    + rewrite decide_False by discriminate. lia.
Qed.

(** X17.  Whatever sequence of [act_and_train] and
    [stop_episode_and_train] calls is made on a fresh agent, as long as the
    calls return: the trajectory window holds every step from [t_start] to
    [t], with the rewards of all but the last; it never holds more than
    [t_max] steps; the local model is a copy of the shared model; and [t]
    counts the calls of [act_and_train]. *)
Theorem training_keeps_the_agent_in_step
    (c : config) (m : Params) (opt : OptState) (rb : ReplayBuffer)
    (cs : list call) (a' : agent) (tr' : list event) :
  0 <= t_max c ->
  run cs (init c m opt rb) [] = Ok (tt, a', tr') ->
  window_ok a' /\
  0 <= t a' - t_start a' <= t_max c /\
  model a' = shared_model a' /\
  t a' = Z.of_nat (length (filter (fun c => is_act c = true) cs)).
Proof.
  intros Hmax H.
  destruct (run_in_step cs (init c m opt rb) a' [] tr') as (Hin & Ht & Hc).
  - split; [apply window_ok_init|]. split; [cbn; lia|reflexivity].
  - exact H.
  - destruct Hin as (Hw & Hb & Hs). cbn in Ht, Hc. rewrite Hc in Hb.
    split; [exact Hw|]. split; [|split; [exact Hs|lia]].
    destruct Hw as (Hle & _). lia.
Qed.

End Interface.

Lemma update_on_policy_needs_a_rewarded_window_witness :
  let a := Toy.agent_of Toy.config_09 [] Toy.uniform Toy.skewed 0 NP.one ([], []) None in
  let b := set_past_rewards
             (Toy.agent_of Toy.config_09 [NP.frac 1 1; NP.frac 1 1] Toy.uniform Toy.skewed 0
                NP.one ([], []) (Some 5))
             {[ 0 := NP.one ]} in
  update_on_policy (W := Toy.world) (Some 6) a [] = Raise (AssertionError, a, []) /\
  update_on_policy (W := Toy.world) (Some 6) b [] = Raise (KeyError (t b - 1), b, []).
Proof.
  cbv zeta. split.
  - apply (proj1 (update_on_policy_needs_a_rewarded_window (W := Toy.world) (Some 6)
                    (Toy.agent_of Toy.config_09 [] Toy.uniform Toy.skewed 0 NP.one
                       ([], []) None) [])).
    cbn. lia.
  - apply (proj2 (update_on_policy_needs_a_rewarded_window (W := Toy.world) (Some 6)
                    (set_past_rewards
                       (Toy.agent_of Toy.config_09 [NP.frac 1 1; NP.frac 1 1] Toy.uniform
                          Toy.skewed 0 NP.one ([], []) (Some 5))
                       {[ 0 := NP.one ]}) [])).
    + cbn. lia.
    + vm_compute. reflexivity.
Defined.

Lemma act_and_train_records_the_step_witness :
  let a := Toy.agent_of Toy.config_09 [NP.frac 1 1] Toy.uniform Toy.skewed 0
             NP.one ([], []) (Some 5) in
  exists a',
    act_and_train (W := Toy.world) 6 (NP.frac 3 1) 1 a [] = Ok (1, a', []) /\
    let out := forward (model a') (phi (6 : @Obs Toy.world)) in
    1 = 1 /\ t a' = t a + 1 /\
    t_start a'
    = (if bool_decide (t a - t_start a = t_max (cfg a)) then t a else t_start a) /\
    past_states a' !! t a = Some (phi (6 : @Obs Toy.world)) /\
    past_values a' !! t a = Some (state_value out) /\
    past_action_distrib a' !! t a = Some out.1 /\
    past_action_log_prob a' !! t a = Some (log_prob out.1 1) /\
    past_action_entropy a' !! t a = Some (entropy out.1) /\
    past_avg_action_distrib a' !! t a
    = Some (forward (shared_average_model a') (phi (6 : @Obs Toy.world))).1 /\
    last_state a' = Some 6 /\ last_action a' = Some 1 /\
    last_action_distrib a' = Some out.1 /\
    (t a - t_start a <> t_max (cfg a) ->
     past_rewards a' !! (t a - 1) = Some (NP.frac 3 1)).
Proof.
  cbv zeta. eexists. split; [vm_compute; reflexivity|].
  apply (act_and_train_records_the_step (W := Toy.world) 6 (NP.frac 3 1) 1 1
           (Toy.agent_of Toy.config_09 [NP.frac 1 1] Toy.uniform Toy.skewed 0
              NP.one ([], []) (Some 5)) _ [] []).
  vm_compute. reflexivity.
Defined.

Lemma act_and_train_stores_the_transition_witness :
  let a := Toy.agent_of Toy.config_09 [NP.frac 1 1] Toy.uniform Toy.skewed 0
             NP.one ([], []) (Some 5) in
  exists a',
    act_and_train (W := Toy.world) 6 (NP.frac 3 1) 1 a [] = Ok (1, a', []) /\
    match last_state a with
    | None => replay_buffer a' = replay_buffer a
    | Some ls =>
        exists la mu,
          last_action a = Some la /\ last_action_distrib a = Some mu /\
          replay_buffer a'
          = rb_append (replay_buffer a)
              {| tr_state := ls; tr_action := la; tr_reward := NP.frac 3 1;
                 tr_next_state := 6; tr_next_action := 1;
                 tr_is_state_terminal := false; tr_mu := Some mu |}
    end.
Proof.
  cbv zeta. eexists. split; [vm_compute; reflexivity|].
  apply (act_and_train_stores_the_transition (W := Toy.world) 6 (NP.frac 3 1) 1 1
           (Toy.agent_of Toy.config_09 [NP.frac 1 1] Toy.uniform Toy.skewed 0
              NP.one ([], []) (Some 5)) _ [] []).
  vm_compute. reflexivity.
Defined.

Lemma stop_episode_and_train_closes_the_episode_witness :
  let a := Toy.agent_of Toy.config_09 [NP.frac 1 1; NP.frac 1 1] Toy.uniform Toy.skewed 0
             NP.one ([], [[Toy.stored Toy.uniform 0 false]]) (Some 5) in
  exists a' tr',
    stop_episode_and_train (W := Toy.world) 6 NP.one true a [] = Ok (tt, a', tr') /\
    (exists ls la,
       last_state a = Some ls /\ last_action a = Some la /\
       replay_buffer a'
       = rb_stop_current_episode
           (rb_append (replay_buffer a)
              {| tr_state := ls; tr_action := la; tr_reward := NP.one;
                 tr_next_state := 6; tr_next_action := la;
                 tr_is_state_terminal := true; tr_mu := last_action_distrib a |})) /\
    t a' = t a /\ t_start a' = t a /\
    past_rewards a' = ∅ /\ past_states a' = ∅ /\ past_values a' = ∅ /\
    past_action_log_prob a' = ∅ /\ past_action_entropy a' = ∅ /\
    past_action_distrib a' = ∅ /\ past_avg_action_distrib a' = ∅ /\
    last_state a' = None /\ last_action a' = None /\ last_action_distrib a' = None /\
    forall state2 reward2 done2 tr2,
      stop_episode_and_train state2 reward2 done2 a' tr2
      = Raise (AssertionError, a', tr2).
Proof.
  cbv zeta. eexists _, _. split; [vm_compute; reflexivity|].
  eapply (stop_episode_and_train_closes_the_episode (W := Toy.world) 6 NP.one true
            (Toy.agent_of Toy.config_09 [NP.frac 1 1; NP.frac 1 1] Toy.uniform Toy.skewed 0
               NP.one ([], [[Toy.stored Toy.uniform 0 false]]) (Some 5)) _ []).
  vm_compute. reflexivity.
Defined.

Lemma training_keeps_the_agent_in_step_witness :
  let cs := [ActAndTrain (1 : @Obs Toy.world) NP.zero 0;
             ActAndTrain (2 : @Obs Toy.world) NP.one 1;
             ActAndTrain (3 : @Obs Toy.world) NP.one 0;
             StopEpisodeAndTrain (4 : @Obs Toy.world) NP.one true] in
  exists a' tr',
    run cs (init (W := Toy.world) Toy.config_09 (1 : @Params Toy.world)
              (0 : @OptState Toy.world) (([], []) : @ReplayBuffer Toy.world)) []
    = Ok (tt, a', tr') /\
    window_ok a' /\
    0 <= t a' - t_start a' <= t_max Toy.config_09 /\
    model a' = shared_model a' /\
    t a' = Z.of_nat (length (filter (fun c => is_act c = true) cs)).
Proof.
  cbv zeta. eexists _, _. split; [vm_compute; reflexivity|].
  eapply (training_keeps_the_agent_in_step (W := Toy.world) Toy.config_09
            (1 : @Params Toy.world) (0 : @OptState Toy.world)
            (([], []) : @ReplayBuffer Toy.world)
            [ActAndTrain (1 : @Obs Toy.world) NP.zero 0;
             ActAndTrain (2 : @Obs Toy.world) NP.one 1;
             ActAndTrain (3 : @Obs Toy.world) NP.one 0;
             StopEpisodeAndTrain (4 : @Obs Toy.world) NP.one true]).
  - vm_compute. discriminate.
  - vm_compute. reflexivity.
Defined.

(** ** save and load *)

Lemma path_join_files_differ (dirname : string) :
  path_join dirname "model.npz" <> path_join dirname "optimizer.npz".
Proof.
  unfold path_join. destruct (_ || _); intros H.
  - apply (inj (String.app dirname)) in H. discriminate H.
  - apply (inj (String.app dirname)) in H. discriminate H.
Qed.

Section Checkpointing.
Context `{W : World}.

(** X18.  What [save] writes, [load] reads back, in any directory and over
    any files already there: an agent that loads a checkpoint gets the
    saved local model as its local and as its shared model and the saved
    optimizer state, prints nothing, and keeps its own average model,
    which [save] does not write; [save] leaves every other file of the
    file system as it was. *)
Theorem load_after_save
    (fs : gmap string npz) (dirname : string) (a b : agent) (tr : list event) :
  load (save fs dirname a) dirname b tr
  = Ok (tt, set_models b (model a) (shared_average_model b) (model a) (optimizer a), tr)
  /\
  forall p, p <> path_join dirname "model.npz" ->
            p <> path_join dirname "optimizer.npz" ->
            save fs dirname a !! p = fs !! p.
Proof.
  pose proof (path_join_files_differ dirname) as Hne. split.
  - unfold load, save, bind, get, put.
    rewrite lookup_insert_ne by (intros H; apply Hne; symmetry; exact H).
    rewrite lookup_insert_eq, lookup_insert_eq. reflexivity.
  - intros p H1 H2. unfold save.
    rewrite !lookup_insert_ne by (intros H; symmetry in H; contradiction).
    reflexivity.
Qed.

End Checkpointing.

(** ** The statistics *)

Section Statistics.
Context `{W : World}.

(** X19.  The statistics reported by [get_stats_values], in the order of
    [get_stats_keys], move in [act_and_train] and nowhere else.  After a
    call of [act_and_train] that returns they are
    [average + (1 - decay) * (new - average)], with the operations of lines
    469-474, where the new value and the new entropy are those of the new
    state under the model the call has left; the updates that may run
    during the call do not touch them.  A call of [stop_episode_and_train]
    that returns leaves them as they were. *)
Theorem statistics_move_in_act_and_train_only
    (state : Obs) (reward : npfloat) (drawn x : action) (done : bool)
    (a a' : agent) (tr tr' : list event) :
  get_stats_keys = ("average_value", "average_entropy") /\
  (act_and_train state reward drawn a tr = Ok (x, a', tr') ->
   let out := forward (model a') (phi state) in
   get_stats_values a'
   = (NP.add (average_value a)
        (NP.mul (NP.sub NP.one (average_value_decay (cfg a)))
           (NP.sub (state_value out) (average_value a))),
      NP.add (average_entropy a)
        (NP.mul (NP.sub NP.one (average_entropy_decay (cfg a)))
           (NP.sub (entropy out.1) (average_entropy a))))) /\
  (stop_episode_and_train state reward done a tr = Ok (tt, a', tr') ->
   get_stats_values a' = get_stats_values a).
Proof.
  split; [reflexivity|]. split.
  - intros H. cbv zeta.
    apply act_and_train_inv in H as (a1 & tr1 & H & Hcase). cbv zeta in Hcase.
    apply observe_and_store_inv in H as (_ & _ & rb & -> & _).
    assert (Hsame : cfg a1 = cfg a /\ average_value a1 = average_value a /\
                    average_entropy a1 = average_entropy a).
    { destruct (bool_decide _).
      - destruct Hcase as (_ & _ & s & vm & m & o & ->). repeat split.
      - subst a1. repeat split. }
    destruct Hsame as (Ec & Ev & Ee).
    unfold get_stats_values.
    cbn [model average_value average_entropy cfg set_last record_step].
    rewrite Ec, Ev, Ee. reflexivity.
  - intros H.
    apply stop_episode_and_train_inv in H
      as (ls & la & s & v & m & o & _ & _ & _ & _ & ->).
    reflexivity.
Qed.

End Statistics.

Lemma load_after_save_witness :
  let a := Toy.agent_of Toy.config_09 [NP.frac 1 1] Toy.uniform Toy.skewed 0
             NP.one ([], []) None in
  let b := init (W := Toy.world) Toy.config_09 (7 : @Params Toy.world)
             (3 : @OptState Toy.world) (([], []) : @ReplayBuffer Toy.world) in
  load (save Toy.checkpoint "run" a) "run" b []
  = Ok (tt, set_models b (model a) (shared_average_model b) (model a) (optimizer a), [])
  /\
  save Toy.checkpoint "run" a !! "run/notes.txt" = Toy.checkpoint !! "run/notes.txt".
Proof.
  cbv zeta. split.
  - apply (proj1 (load_after_save (W := Toy.world) Toy.checkpoint "run"
                    (Toy.agent_of Toy.config_09 [NP.frac 1 1] Toy.uniform Toy.skewed 0
                       NP.one ([], []) None)
                    (init (W := Toy.world) Toy.config_09 (7 : @Params Toy.world)
                       (3 : @OptState Toy.world) (([], []) : @ReplayBuffer Toy.world))
                    [])).
  - apply (proj2 (load_after_save (W := Toy.world) Toy.checkpoint "run"
                    (Toy.agent_of Toy.config_09 [NP.frac 1 1] Toy.uniform Toy.skewed 0
                       NP.one ([], []) None)
                    (init (W := Toy.world) Toy.config_09 (7 : @Params Toy.world)
                       (3 : @OptState Toy.world) (([], []) : @ReplayBuffer Toy.world))
                    []) "run/notes.txt"); vm_compute; discriminate.
Defined.

Lemma statistics_move_in_act_and_train_only_witness :
  let a := Toy.agent_of Toy.config_09 [NP.frac 1 1; NP.frac 1 1] Toy.uniform Toy.skewed 0
             NP.one ([], [[Toy.stored Toy.uniform 0 false]]) (Some 5) in
  exists a1 tr1 a2 tr2,
    act_and_train (W := Toy.world) 6 (NP.frac 3 1) 1 a [] = Ok (1, a1, tr1) /\
    stop_episode_and_train (W := Toy.world) 6 NP.one true a [] = Ok (tt, a2, tr2) /\
    (let out := forward (model a1) (phi (6 : @Obs Toy.world)) in
     get_stats_values a1
     = (NP.add (average_value a)
          (NP.mul (NP.sub NP.one (average_value_decay (cfg a)))
             (NP.sub (state_value out) (average_value a))),
        NP.add (average_entropy a)
          (NP.mul (NP.sub NP.one (average_entropy_decay (cfg a)))
             (NP.sub (entropy out.1) (average_entropy a))))) /\
    get_stats_values a2 = get_stats_values a.
Proof.
  cbv zeta. eexists _, _, _, _.
  split; [vm_compute; reflexivity|]. split; [vm_compute; reflexivity|].
  split.
  - eapply (proj1 (proj2 (statistics_move_in_act_and_train_only (W := Toy.world)
                            6 (NP.frac 3 1) 1 1 true
                            (Toy.agent_of Toy.config_09 [NP.frac 1 1; NP.frac 1 1]
                               Toy.uniform Toy.skewed 0 NP.one
                               ([], [[Toy.stored Toy.uniform 0 false]]) (Some 5))
                            _ [] _))).
    vm_compute. reflexivity.
  - eapply (proj2 (proj2 (statistics_move_in_act_and_train_only (W := Toy.world)
                            6 NP.one 1 1 true
                            (Toy.agent_of Toy.config_09 [NP.frac 1 1; NP.frac 1 1]
                               Toy.uniform Toy.skewed 0 NP.one
                               ([], [[Toy.stored Toy.uniform 0 false]]) (Some 5))
                            _ [] _))).
    vm_compute. reflexivity.
Defined.

(** ** The weights of the bias correction *)

Section CorrectionWeights.

Lemma correction_weight_entry (c r : Qc) :
  (0 <= c)%Qc -> (0 < r)%Qc ->
  exists q,
    NP.maximum (NP.div (NP.sub (Fin r) (Fin c)) (Fin r)) NP.zero = Fin q /\
    (0 <= q)%Qc /\ (q <= 1)%Qc /\ ((r <= c)%Qc -> q = 0%Qc) /\
    ((c < r)%Qc -> q = (1 - c / r)%Qc).
Proof.
  intros Hc Hr.
  assert (Hr0 : r <> 0%Qc) by (intros ->; by apply Qclt_not_eq in Hr).
  assert (Hinv : (0 <= / r)%Qc) by (apply Qclt_le_weak, Qcinv_pos, Hr).
  cbn [NP.sub NP.div]. destruct (decide (r = 0%Qc)) as [?|_]; [done|].
  set (x := ((r - c) / r)%Qc).
  assert (Hx1 : (x <= 1)%Qc).
  { apply Qcle_minus_iff. replace (1 + - x)%Qc with (c * / r)%Qc
      by (unfold x; by field).
    by apply Qcmult_nonneg_nonneg. }
  assert (Hx0 : (r <= c)%Qc -> (x <= 0)%Qc).
  { intros Hle. apply Qcle_minus_iff. replace (0 + - x)%Qc with ((c - r) * / r)%Qc
      by (unfold x; by field).
    apply Qcmult_nonneg_nonneg; [|exact Hinv].
    apply Qcle_minus_iff in Hle. exact Hle. }
  assert (Hxpos : (c < r)%Qc -> (0 < x)%Qc).
  { intros Hlt. unfold x, Qcdiv. apply Qcmult_pos_pos; [|apply Qcinv_pos, Hr].
    apply Qclt_minus_iff in Hlt. exact Hlt. }
  unfold NP.maximum, NP.zero. cbn [NP.is_nan orb NP.lt].
  case_bool_decide as Hneg.
  - exists 0%Qc. split; [reflexivity|]. split; [done|]. split; [done|].
    split; [done|]. intros Hlt. apply Hxpos in Hlt.
    exfalso. exact (Qclt_not_le _ _ Hneg (Qclt_le_weak _ _ Hlt)).
  - apply Qcnot_lt_le in Hneg. exists x. split; [reflexivity|].
    split; [exact Hneg|]. split; [exact Hx1|]. split.
    + intros Hle. apply Qcle_antisym; [exact (Hx0 Hle)|exact Hneg].
    + intros _. unfold x. by field.
Qed.

(** X20.  The weights of the bias-correction term of the off-policy loss,
    [max((rho_a - c) / rho_a, 0)] (lines 205-208): for a truncation
    threshold [c >= 0] and finite positive ratios, every weight is a
    finite number of [0, 1]; it is 0 exactly for the actions whose ratio
    does not exceed [c], where the correction is switched off, and
    [1 - c / rho_a] for the others. *)
Theorem correction_weights_are_in_the_unit_interval
    (cfg : config) (c : Qc) (rs : list Qc) :
  trust_region_c cfg = Fin c -> (0 <= c)%Qc ->
  Forall (fun r => (0 < r)%Qc) rs ->
  Forall2 (fun r wt =>
             exists q, wt = Fin q /\ (0 <= q)%Qc /\ (q <= 1)%Qc /\
                       ((r <= c)%Qc -> q = 0%Qc) /\
                       ((c < r)%Qc -> q = (1 - c / r)%Qc))
    rs (correction_weight cfg (Fin <$> rs)).
Proof.
  intros Hcfg Hc Hrs. unfold correction_weight. rewrite Hcfg.
  induction rs as [|r rs IH]; [constructor|].
  apply Forall_cons in Hrs as [Hr Hrs]. cbn [fmap list_fmap map].
  constructor; [|exact (IH Hrs)].
  exact (correction_weight_entry c r Hc Hr).
Qed.

End CorrectionWeights.

Lemma correction_weights_are_in_the_unit_interval_witness :
  Forall2 (fun r wt =>
             exists q, wt = Fin q /\ (0 <= q)%Qc /\ (q <= 1)%Qc /\
                       ((r <= Qc_of 10 1)%Qc -> q = 0%Qc) /\
                       ((Qc_of 10 1 < r)%Qc -> q = (1 - Qc_of 10 1 / r)%Qc))
    [Qc_of 1 2; Qc_of 20 1]
    (correction_weight Toy.config_09 (Fin <$> [Qc_of 1 2; Qc_of 20 1])).
Proof.
  apply (correction_weights_are_in_the_unit_interval Toy.config_09 (Qc_of 10 1)
           [Qc_of 1 2; Qc_of 20 1]).
  - reflexivity.
  - apply Qcle_alt. vm_compute. discriminate.
  - repeat constructor.
Defined.

Lemma update_on_an_empty_window_raises_witness :
  let a := Toy.agent_of Toy.config_09 [NP.frac 1 1; NP.frac 1 1] Toy.skewed Toy.uniform 0
             (NP.frac 3 2) ([], []) None in
  let w := Toy.window_of [NP.frac 1 1; NP.frac 1 1] Toy.skewed Toy.uniform
             (Toy.q_function (NP.frac 3 2) (NP.frac 3 2)) 0 (NP.frac 3 2) in
  update (W := Toy.world) 2 2 NP.zero w a [] = Raise (ZeroDivisionError, a, []) /\
  update (W := Toy.world) 2 1 NP.zero w a [] = Raise (AttributeError, a, []).
Proof.
  cbv zeta. split.
  - apply (update_on_an_empty_window_raises (W := Toy.world) 2 2). lia.
  - apply (update_on_an_empty_window_raises (W := Toy.world) 2 1). lia.
Defined.
